(** * scp-mcp-wrapper: discovery, authorization flow and token lifecycle

    A shallow embedding of the TypeScript sources
    ([config.ts], [storage/encryption.ts], [storage/database-sqljs.ts],
    [discovery/dns-lookup.ts], [auth/oauth-client.ts],
    [auth/token-manager.ts] and the tool handlers of [server.ts]) and the
    properties the specification states about them.

    Conventions of the embedding:
    - a JavaScript string is the list of its UTF-16 code units;
    - a [Buffer] is a list of bytes;
    - an [async] function is a state transformer over [World] that either
      returns a value or throws a [JSError]; the world keeps the tables of
      the sql.js database, the module-level key cache, the configuration
      file, and the trace of every interaction with the outside (network,
      DNS, clock, entropy, timers);
    - the outside is a family of oracles that answer from the trace so
      far, so every theorem holds for every behaviour of the servers. *)

From Stdlib Require Import ZArith List Bool Ascii String Lia.
From Stdlib Require Import Strings.Byte DecimalString.
From stdpp Require Import base option list gmap.

Local Open Scope Z_scope.

(* ================================================================== *)
(** * JavaScript strings *)

(** A string value: the sequence of its UTF-16 code units. *)
Abbreviation jsstring := (list Z) (only parsing).

(** An ASCII literal of the source as a JavaScript string. *)
Definition js (s : string) : jsstring :=
  map (fun a => Z.of_N (N_of_ascii a)) (list_ascii_of_string s).

Arguments js : simpl never.

(** Number-to-string conversion of an integer inside a template literal. *)
Definition show_Z (z : Z) : jsstring :=
  js (NilEmpty.string_of_int (Z.to_int z)).

(** [s.startsWith(p)] *)
Fixpoint startsWith (p s : jsstring) : bool :=
  match p, s with
  | [], _ => true
  | _ :: _, [] => false
  | a :: p', b :: s' => (a =? b) && startsWith p' s'
  end.

(** [s.includes(p)] *)
Fixpoint includes (p s : jsstring) : bool :=
  startsWith p s ||
  match s with
  | [] => false
  | _ :: s' => includes p s'
  end.

(** [s.endsWith(p)] *)
Definition endsWith (p s : jsstring) : bool :=
  startsWith (rev p) (rev s).

(** [l.join(sep)] *)
Fixpoint join (sep : jsstring) (l : list jsstring) : jsstring :=
  match l with
  | [] => []
  | [x] => x
  | x :: rest => x ++ sep ++ join sep rest
  end.

(** [s.split(' ')]: split at every occurrence of one separator unit.
    The result always has at least one piece. *)
Fixpoint split_on (sep : Z) (s : jsstring) : list jsstring :=
  match s with
  | [] => [[]]
  | c :: s' =>
      if c =? sep then [] :: split_on sep s'
      else match split_on sep s' with
           | [] => [[c]]
           | w :: ws => (c :: w) :: ws
           end
  end.

(** Truthiness of a string: only the empty string is falsy. *)
Definition truthy (s : jsstring) : bool :=
  match s with [] => false | _ => true end.

(** [v || d] on an optional string ([undefined] and [""] are falsy). *)
Definition or_default (v : option jsstring) (d : jsstring) : jsstring :=
  match v with
  | Some s => if truthy s then s else d
  | None => d
  end.

(** The class [\s] of ECMAScript regular expressions: WhiteSpace and
    LineTerminator code units. *)
Definition is_regex_space (c : Z) : bool :=
  ((9 <=? c) && (c <=? 13)) || (c =? 32) || (c =? 160) || (c =? 5760)
  || ((8192 <=? c) && (c <=? 8202)) || (c =? 8232) || (c =? 8233)
  || (c =? 8239) || (c =? 8287) || (c =? 12288) || (c =? 65279).

(** The maximal prefix of units that [[^\s]] accepts. *)
Fixpoint take_nonspace (s : jsstring) : jsstring :=
  match s with
  | [] => []
  | c :: s' => if is_regex_space c then [] else c :: take_nonspace s'
  end.

(** [new Set(iterable)]: insertion order, later duplicates dropped. *)
Definition js_set (l : list jsstring) : list jsstring :=
  reverse (remove_dups (reverse l)).

(** [set.has(x)] *)
Definition set_has (x : jsstring) (s : list jsstring) : bool :=
  bool_decide (x ∈ s).

(* ================================================================== *)
(** * Buffers: bytes, hex and UTF-8 *)

Definition byte_to_Z (b : byte) : Z := Z.of_N (Byte.to_N b).

Definition byte_of_Z (z : Z) : byte :=
  match Byte.of_N (Z.to_N (z mod 256)) with
  | Some b => b
  | None => x00
  end.

(** One lower-case hexadecimal digit, as [buf.toString('hex')] writes it. *)
Definition hex_digit (n : Z) : Z :=
  if n <? 10 then 48 + n else 87 + n.

(** The value of a hexadecimal digit of either case. *)
Definition hex_value (c : Z) : option Z :=
  if (48 <=? c) && (c <=? 57) then Some (c - 48)
  else if (97 <=? c) && (c <=? 102) then Some (c - 87)
  else if (65 <=? c) && (c <=? 70) then Some (c - 55)
  else None.

(** [buf.toString('hex')] *)
Fixpoint hex_encode (bs : list byte) : jsstring :=
  match bs with
  | [] => []
  | b :: bs' =>
      hex_digit (byte_to_Z b / 16) :: hex_digit (byte_to_Z b mod 16)
        :: hex_encode bs'
  end.

(** [Buffer.from(s, 'hex')]: decoding stops at the first pair that is not
    two hexadecimal digits; a trailing single digit is dropped. *)
Fixpoint hex_decode (s : jsstring) : list byte :=
  match s with
  | h :: l :: rest =>
      match hex_value h, hex_value l with
      | Some a, Some b => byte_of_Z (16 * a + b) :: hex_decode rest
      | _, _ => []
      end
  | _ => []
  end.

Definition in_range (lo hi z : Z) : bool := (lo <=? z) && (z <=? hi).

Definition is_high_surrogate (c : Z) : bool := in_range 0xD800 0xDBFF c.
Definition is_low_surrogate (c : Z) : bool := in_range 0xDC00 0xDFFF c.

(** U+FFFD in UTF-8. *)
Definition replacement_bytes : list byte :=
  [byte_of_Z 0xEF; byte_of_Z 0xBF; byte_of_Z 0xBD].

Definition utf8_bytes2 (c : Z) : list byte :=
  [byte_of_Z (0xC0 + c / 64); byte_of_Z (0x80 + c mod 64)].

Definition utf8_bytes3 (c : Z) : list byte :=
  [byte_of_Z (0xE0 + c / 4096); byte_of_Z (0x80 + (c / 64) mod 64);
   byte_of_Z (0x80 + c mod 64)].

Definition utf8_bytes4 (cp : Z) : list byte :=
  [byte_of_Z (0xF0 + cp / 262144); byte_of_Z (0x80 + (cp / 4096) mod 64);
   byte_of_Z (0x80 + (cp / 64) mod 64); byte_of_Z (0x80 + cp mod 64)].

(** Writing a string into a buffer with the ['utf8'] encoding, as
    [cipher.update(token, 'utf8')] does: a surrogate pair becomes one
    four-byte sequence, and a surrogate that has no partner becomes
    U+FFFD. *)
Fixpoint utf8_encode (s : jsstring) : list byte :=
  match s with
  | [] => []
  | c :: s' =>
      if c <? 0x80 then byte_of_Z c :: utf8_encode s'
      else if c <? 0x800 then utf8_bytes2 c ++ utf8_encode s'
      else if is_high_surrogate c then
        match s' with
        | d :: s'' =>
            if is_low_surrogate d
            then utf8_bytes4 (0x10000 + (c - 0xD800) * 0x400 + (d - 0xDC00))
                   ++ utf8_encode s''
            else replacement_bytes ++ utf8_encode s'
        | [] => replacement_bytes
        end
      else if is_low_surrogate c then replacement_bytes ++ utf8_encode s'
      else utf8_bytes3 c ++ utf8_encode s'
  end.

Definition is_continuation (z : Z) : bool := in_range 0x80 0xBF z.

(** The code units of one decoded code point. *)
Definition units_of_code_point (cp : Z) : jsstring :=
  if cp <? 0x10000 then [cp]
  else [0xD800 + (cp - 0x10000) / 0x400; 0xDC00 + (cp - 0x10000) mod 0x400].

(** [buf.toString('utf8')]: every ill-formed subsequence is replaced by
    one U+FFFD and decoding resumes at the byte that broke it. *)
Fixpoint utf8_decode (bs : list byte) : jsstring :=
  match bs with
  | [] => []
  | b1 :: t1 =>
      let z1 := byte_to_Z b1 in
      if z1 <? 0x80 then z1 :: utf8_decode t1
      else if in_range 0xC2 0xDF z1 then
        match t1 with
        | b2 :: t2 =>
            let z2 := byte_to_Z b2 in
            if is_continuation z2
            then ((z1 - 0xC0) * 64 + (z2 - 0x80)) :: utf8_decode t2
            else 0xFFFD :: utf8_decode t1
        | [] => [0xFFFD]
        end
      else if in_range 0xE0 0xEF z1 then
        match t1 with
        | b2 :: t2 =>
            let z2 := byte_to_Z b2 in
            if in_range (if z1 =? 0xE0 then 0xA0 else 0x80)
                        (if z1 =? 0xED then 0x9F else 0xBF) z2
            then
              match t2 with
              | b3 :: t3 =>
                  let z3 := byte_to_Z b3 in
                  if is_continuation z3
                  then ((z1 - 0xE0) * 4096 + (z2 - 0x80) * 64 + (z3 - 0x80))
                         :: utf8_decode t3
                  else 0xFFFD :: utf8_decode t2
              | [] => [0xFFFD]
              end
            else 0xFFFD :: utf8_decode t1
        | [] => [0xFFFD]
        end
      else if in_range 0xF0 0xF4 z1 then
        match t1 with
        | b2 :: t2 =>
            let z2 := byte_to_Z b2 in
            if in_range (if z1 =? 0xF0 then 0x90 else 0x80)
                        (if z1 =? 0xF4 then 0x8F else 0xBF) z2
            then
              match t2 with
              | b3 :: t3 =>
                  let z3 := byte_to_Z b3 in
                  if is_continuation z3
                  then
                    match t3 with
                    | b4 :: t4 =>
                        let z4 := byte_to_Z b4 in
                        if is_continuation z4
                        then units_of_code_point
                               ((z1 - 0xF0) * 262144 + (z2 - 0x80) * 4096
                                + (z3 - 0x80) * 64 + (z4 - 0x80))
                               ++ utf8_decode t4
                        else 0xFFFD :: utf8_decode t3
                    | [] => [0xFFFD]
                    end
                  else 0xFFFD :: utf8_decode t2
              | [] => [0xFFFD]
              end
            else 0xFFFD :: utf8_decode t1
        | [] => [0xFFFD]
        end
      else 0xFFFD :: utf8_decode t1
  end.

(** A well-formed UTF-16 string: every unit is a 16-bit value and every
    surrogate is part of a high/low pair. *)
Fixpoint well_formed_utf16 (s : jsstring) : bool :=
  match s with
  | [] => true
  | c :: s' =>
      if is_high_surrogate c then
        match s' with
        | d :: s'' => is_low_surrogate d && well_formed_utf16 s''
        | [] => false
        end
      else in_range 0 0xFFFF c && negb (is_low_surrogate c)
           && well_formed_utf16 s'
  end.

(** The string with every surrogate that has no partner replaced by
    U+FFFD, as [String.prototype.toWellFormed] gives it. *)
Fixpoint to_well_formed (s : jsstring) : jsstring :=
  match s with
  | [] => []
  | c :: s' =>
      if is_high_surrogate c then
        match s' with
        | d :: s'' =>
            if is_low_surrogate d then c :: d :: to_well_formed s''
            else 0xFFFD :: to_well_formed s'
        | [] => [0xFFFD]
        end
      else if is_low_surrogate c then 0xFFFD :: to_well_formed s'
      else c :: to_well_formed s'
  end.

(** Flipping bit [i] (counted from the least significant bit of the first
    byte) of a buffer; out of range the buffer is returned as it is. *)
Definition flip_byte (j : nat) (b : byte) : byte :=
  byte_of_Z (Z.lxor (byte_to_Z b) (Z.shiftl 1 (Z.of_nat j))).

Fixpoint flip_bit (i : nat) (bs : list byte) : list byte :=
  match bs with
  | [] => []
  | b :: bs' =>
      if (i <? 8)%nat then flip_byte i b :: bs'
      else b :: flip_bit (i - 8) bs'
  end.

(* ================================================================== *)
(** * The envelope text *)

Definition dquote : Z := 34.

(** [JSON.stringify({iv, data, tag})] for three strings that need no
    escaping, which is the case of the hexadecimal strings the source
    puts there. Keys appear in insertion order. *)
Definition stringify_envelope (iv data tag : jsstring) : jsstring :=
  js "{" ++ [dquote] ++ js "iv" ++ [dquote] ++ js ":" ++ [dquote] ++ iv
    ++ [dquote] ++ js "," ++ [dquote] ++ js "data" ++ [dquote] ++ js ":"
    ++ [dquote] ++ data ++ [dquote] ++ js "," ++ [dquote] ++ js "tag"
    ++ [dquote] ++ js ":" ++ [dquote] ++ tag ++ [dquote] ++ js "}".

(** A unit that a string literal holds as it is: no quote, no backslash,
    no control character. *)
Definition plain_unit (c : Z) : Prop := c <> 34 /\ c <> 92 /\ 32 <= c.

Fixpoint strip_prefix (p s : jsstring) : option jsstring :=
  match p, s with
  | [], _ => Some s
  | _ :: _, [] => None
  | a :: p', b :: s' => if a =? b then strip_prefix p' s' else None
  end.

(** The body of a string literal up to its closing quote, and the text
    after that quote. Literals with an escape or a control character are
    not read. *)
Fixpoint string_body (s : jsstring) : option (jsstring * jsstring) :=
  match s with
  | [] => None
  | c :: s' =>
      if c =? dquote then Some ([], s')
      else if (c =? 92) || (c <? 32) then None
      else match string_body s' with
           | Some (body, rest) => Some (c :: body, rest)
           | None => None
           end
  end.

Record Envelope := {
  env_iv : jsstring;
  env_data : jsstring;
  env_tag : jsstring
}.

(** [JSON.parse(encrypted)] followed by the reads of [parsed.iv],
    [parsed.data] and [parsed.tag], on the texts [stringify_envelope]
    writes. [None] stands for the exception of a failed parse. *)
Definition parse_envelope (s : jsstring) : option Envelope :=
  s1 ← strip_prefix (js "{" ++ [dquote] ++ js "iv" ++ [dquote] ++ js ":"
                       ++ [dquote]) s;
  '(iv, s2) ← string_body s1;
  s3 ← strip_prefix (js "," ++ [dquote] ++ js "data" ++ [dquote] ++ js ":"
                       ++ [dquote]) s2;
  '(data, s4) ← string_body s3;
  s5 ← strip_prefix (js "," ++ [dquote] ++ js "tag" ++ [dquote] ++ js ":"
                       ++ [dquote]) s4;
  '(tag, s6) ← string_body s5;
  match s6 with
  | [125] => Some {| env_iv := iv; env_data := data; env_tag := tag |}
  | _ => None
  end.

(* ================================================================== *)
(** * Data model ([types.ts]) *)

Record JSError := {
  message : jsstring;
  code : option jsstring
}.

(** [new Error(msg)] *)
Definition Error (msg : jsstring) : JSError :=
  {| message := msg; code := None |}.

Record SCPConfig := {
  dns_resolver : jsstring;
  dns_cache_ttl : Z;
  poll_interval : Z;
  max_poll_attempts : Z;
  token_refresh_threshold : Z;
  request_timeout : Z;
  demo_mode : option bool;
  demo_endpoint : option jsstring
}.

Record MerchantAuthorization := {
  merchant_domain : jsstring;
  scp_endpoint : jsstring;
  customer_id : jsstring;
  customer_email : jsstring;
  access_token_encrypted : jsstring;
  refresh_token_encrypted : jsstring;
  expires_at : Z;
  scopes : list jsstring;
  created_at : Z;
  updated_at : Z
}.

Record SCPCapabilities := {
  version : jsstring;
  protocol_version : jsstring;
  scopes_supported : option (list jsstring);
  authorization_endpoint : jsstring;
  token_endpoint : jsstring;
  revocation_endpoint : jsstring;
  grant_types_supported : list jsstring;
  code_challenge_methods_supported : list jsstring;
  token_endpoint_auth_methods_supported : list jsstring;
  magic_link_supported : bool;
  webhook_support : bool;
  rate_limit : option (Z * Z)
}.

Record EndpointCache := {
  domain : jsstring;
  endpoint : jsstring;
  capabilities : option SCPCapabilities;
  discovered_at : Z;
  ttl : Z
}.

Record AuthorizationRequest := {
  email : jsstring;
  client_id : jsstring;
  client_name : jsstring;
  request_domain : jsstring;
  request_scopes : list jsstring;
  code_challenge : jsstring;
  code_challenge_method : jsstring;
  redirect_uri : jsstring;
  state : jsstring
}.

Record AuthorizationResponse := {
  auth_request_id : jsstring;
  email_sent : bool;
  auth_expires_in : Z;
  auth_poll_interval : Z
}.

(** [status] is any string: the source compares it with three literals
    and treats everything else alike. *)
Record PollResponse := {
  poll_status : jsstring;
  poll_code : option jsstring;
  poll_expires_in : option Z;
  poll_reason : option jsstring;
  poll_error : option jsstring
}.

Record TokenResponse := {
  access_token : jsstring;
  refresh_token : jsstring;
  token_type : jsstring;
  expires_in : Z;
  scope : jsstring;
  token_customer_id : jsstring;
  token_email : jsstring
}.

(* ================================================================== *)
(** * The outside: requests, responses, events *)

Inductive Method := GET | POST | HEAD.

(** The body of a request before serialization ([JSON.stringify] of the
    authorization request, or [URLSearchParams.toString()] of a list of
    pairs). *)
Inductive RequestBody :=
| NoBody
| JsonBody (r : AuthorizationRequest)
| FormBody (params : list (jsstring * jsstring)).

Record Request := {
  req_url : jsstring;
  req_method : Method;
  req_headers : list (jsstring * jsstring);
  req_body : RequestBody;
  req_timeout : Z
}.

(** What [response.json()] yields, by the interface the call site
    declares for it; [BadJson] is a body that does not parse. *)
Inductive Payload :=
| BadJson
| WellKnownDoc (endpoint_field : option jsstring)
| CapabilitiesDoc (c : SCPCapabilities)
| AuthorizationDoc (a : AuthorizationResponse)
| PollDoc (p : PollResponse)
| TokenDoc (t : TokenResponse)
| ErrorDoc (error_description : option jsstring).

Record Response := {
  status : Z;
  statusText : jsstring;
  headers : list (jsstring * jsstring);
  payload : Payload
}.

(** [response.ok] *)
Definition ok (r : Response) : bool := in_range 200 299 (status r).

Inductive FetchOutcome :=
| Rejected (e : JSError)
| Resolved (r : Response).

Inductive DnsOutcome :=
| DnsFailure (e : JSError)
| DnsRecords (records : list (list jsstring)).

Inductive Event :=
| EvFetch (r : Request)
| EvResolveTxt (query : jsstring)
| EvNow
| EvRandomBytes (n : nat)
| EvTimeout (ms : Z).

(** The events that are requests to a server. *)
Definition is_fetch (ev : Event) : bool :=
  match ev with EvFetch _ => true | _ => false end.

Record Outside := {
  server : list Event -> Request -> FetchOutcome;
  resolver : list Event -> jsstring -> DnsOutcome;
  clock : list Event -> Z;
  entropy : list Event -> nat -> list byte
}.

(** The content of [~/.scp/config.json]: text that does not parse, or an
    object holding some of the configuration keys. *)
Record ConfigObject := {
  cfg_dns_resolver : option jsstring;
  cfg_dns_cache_ttl : option Z;
  cfg_poll_interval : option Z;
  cfg_max_poll_attempts : option Z;
  cfg_token_refresh_threshold : option Z;
  cfg_request_timeout : option Z;
  cfg_demo_mode : option bool;
  cfg_demo_endpoint : option jsstring
}.

Inductive ConfigFile :=
| Malformed
| Parsed (c : ConfigObject).

(** The single row of table [encryption_keys]. *)
Record KeyRow := {
  salt_hex : jsstring;
  key_hex : jsstring;
  key_created_at : Z
}.

Record World := {
  outside : Outside;
  trace : list Event;
  SCP_TEST_ENDPOINT : option jsstring;
  config_file : option ConfigFile;
  merchant_authorizations : gmap (list Z) MerchantAuthorization;
  endpoint_cache : gmap (list Z) EndpointCache;
  encryption_keys : option KeyRow;
  masterKeyCache : option (list byte)
}.

Definition log_event (ev : Event) (w : World) : World :=
  {| outside := outside w; trace := trace w ++ [ev];
     SCP_TEST_ENDPOINT := SCP_TEST_ENDPOINT w;
     config_file := config_file w;
     merchant_authorizations := merchant_authorizations w;
     endpoint_cache := endpoint_cache w;
     encryption_keys := encryption_keys w;
     masterKeyCache := masterKeyCache w |}.

Definition set_config_file (f : option ConfigFile) (w : World) : World :=
  {| outside := outside w; trace := trace w;
     SCP_TEST_ENDPOINT := SCP_TEST_ENDPOINT w;
     config_file := f;
     merchant_authorizations := merchant_authorizations w;
     endpoint_cache := endpoint_cache w;
     encryption_keys := encryption_keys w;
     masterKeyCache := masterKeyCache w |}.

Definition set_merchant_authorizations
    (t : gmap (list Z) MerchantAuthorization) (w : World) : World :=
  {| outside := outside w; trace := trace w;
     SCP_TEST_ENDPOINT := SCP_TEST_ENDPOINT w;
     config_file := config_file w;
     merchant_authorizations := t;
     endpoint_cache := endpoint_cache w;
     encryption_keys := encryption_keys w;
     masterKeyCache := masterKeyCache w |}.

Definition set_endpoint_cache
    (t : gmap (list Z) EndpointCache) (w : World) : World :=
  {| outside := outside w; trace := trace w;
     SCP_TEST_ENDPOINT := SCP_TEST_ENDPOINT w;
     config_file := config_file w;
     merchant_authorizations := merchant_authorizations w;
     endpoint_cache := t;
     encryption_keys := encryption_keys w;
     masterKeyCache := masterKeyCache w |}.

Definition set_encryption_keys (k : option KeyRow) (w : World) : World :=
  {| outside := outside w; trace := trace w;
     SCP_TEST_ENDPOINT := SCP_TEST_ENDPOINT w;
     config_file := config_file w;
     merchant_authorizations := merchant_authorizations w;
     endpoint_cache := endpoint_cache w;
     encryption_keys := k;
     masterKeyCache := masterKeyCache w |}.

Definition set_masterKeyCache (k : option (list byte)) (w : World) : World :=
  {| outside := outside w; trace := trace w;
     SCP_TEST_ENDPOINT := SCP_TEST_ENDPOINT w;
     config_file := config_file w;
     merchant_authorizations := merchant_authorizations w;
     endpoint_cache := endpoint_cache w;
     encryption_keys := encryption_keys w;
     masterKeyCache := k |}.

(* ================================================================== *)
(** * Computations that may throw *)

Inductive Completion (A : Type) :=
| Return (a : A)
| Throw (e : JSError).
Arguments Return {A} a.
Arguments Throw {A} e.

(** The error of a completion, if it is one. *)
Definition thrown {A} (c : Completion A) : option JSError :=
  match c with
  | Throw e => Some e
  | Return _ => None
  end.

Definition M (A : Type) : Type := World -> World * Completion A.

Definition ret {A} (a : A) : M A := fun w => (w, Return a).

Definition throw {A} (e : JSError) : M A := fun w => (w, Throw e).

Definition bind {A B} (c : M A) (k : A -> M B) : M B :=
  fun w =>
    match c w with
    | (w', Return a) => k a w'
    | (w', Throw e) => (w', Throw e)
    end.

(** [try { c } catch (error) { h error }] *)
Definition try_catch {A} (c : M A) (h : JSError -> M A) : M A :=
  fun w =>
    match c w with
    | (w', Return a) => (w', Return a)
    | (w', Throw e) => h e w'
    end.

Notation "'await' x <- c ;; k" := (bind c (fun x => k))
  (at level 10, x name, c at level 99, k at level 200, only parsing).

(** [Date.now()] *)
Definition Date_now : M Z :=
  fun w => (log_event EvNow w, Return (clock (outside w) (trace w))).

(** [await fetch(url, init)] *)
Definition fetch (r : Request) : M Response :=
  fun w =>
    match server (outside w) (trace w) r with
    | Rejected e => (log_event (EvFetch r) w, Throw e)
    | Resolved resp => (log_event (EvFetch r) w, Return resp)
    end.

(** [await resolver.resolveTxt(query)] *)
Definition resolveTxt (query : jsstring) : M (list (list jsstring)) :=
  fun w =>
    match resolver (outside w) (trace w) query with
    | DnsFailure e => (log_event (EvResolveTxt query) w, Throw e)
    | DnsRecords rs => (log_event (EvResolveTxt query) w, Return rs)
    end.

(** [randomBytes(n)]: exactly [n] bytes. *)
Definition randomBytes (n : nat) : M (list byte) :=
  fun w =>
    (log_event (EvRandomBytes n) w,
     Return (resize n x00 (entropy (outside w) (trace w) n))).

(** [await new Promise(resolve => setTimeout(resolve, ms))] *)
Definition sleep (ms : Z) : M unit :=
  fun w => (log_event (EvTimeout ms) w, Return tt).

(** [response.headers.get(name)]: header names compare without case,
    and the values of repeated lines are joined with a comma and a
    space. *)
Definition ascii_lower (c : Z) : Z :=
  if in_range 65 90 c then c + 32 else c.

Definition headers_get (name : jsstring) (hs : list (jsstring * jsstring))
  : option jsstring :=
  match List.filter
          (fun h => bool_decide (map ascii_lower (fst h)
                                 = map ascii_lower name)) hs with
  | [] => None
  | lines => Some (join (js ", ") (map snd lines))
  end.

(** [await response.json()] at a call site that declares interface [T];
    [view] says what that call site reads of a payload. A body that
    does not parse rejects, and so does one that [view] does not
    read. *)
Definition json_as {T} (view : Payload -> option T) (r : Response) : M T :=
  match view (payload r) with
  | Some t => ret t
  | None => throw (Error (js "Unexpected token in JSON"))
  end.

(** [(await response.json().catch(() => ({}))).error_description] *)
Definition error_description_of (r : Response) : option jsstring :=
  match payload r with
  | ErrorDoc d => d
  | _ => None
  end.

(* ================================================================== *)
(** * [storage/database-sqljs.ts]

    Each table is a finite map from its [UNIQUE] column to the row. The
    synthetic [id] column is read by no function below and is left out;
    [saveDatabase] rewrites the file after every mutation and has no
    effect on the tables. A [TEXT] column keeps its value as UTF-8: the
    maps hold the strings as they were bound, which is what the table
    gives back for well-formed strings, and the statements that read a
    written row back ask for those. *)

Definition with_merchant_domain (d : jsstring) (a : MerchantAuthorization)
  : MerchantAuthorization :=
  {| merchant_domain := d;
     scp_endpoint := scp_endpoint a;
     customer_id := customer_id a;
     customer_email := customer_email a;
     access_token_encrypted := access_token_encrypted a;
     refresh_token_encrypted := refresh_token_encrypted a;
     expires_at := expires_at a;
     scopes := scopes a;
     created_at := created_at a;
     updated_at := updated_at a |}.

Definition with_created_at (t : Z) (a : MerchantAuthorization)
  : MerchantAuthorization :=
  {| merchant_domain := merchant_domain a;
     scp_endpoint := scp_endpoint a;
     customer_id := customer_id a;
     customer_email := customer_email a;
     access_token_encrypted := access_token_encrypted a;
     refresh_token_encrypted := refresh_token_encrypted a;
     expires_at := expires_at a;
     scopes := scopes a;
     created_at := t;
     updated_at := updated_at a |}.

(** The [SET] clause of [updateAuthorizationTokens]. *)
Definition with_tokens (access refresh : jsstring) (expires now : Z)
    (a : MerchantAuthorization) : MerchantAuthorization :=
  {| merchant_domain := merchant_domain a;
     scp_endpoint := scp_endpoint a;
     customer_id := customer_id a;
     customer_email := customer_email a;
     access_token_encrypted := access;
     refresh_token_encrypted := refresh;
     expires_at := expires;
     scopes := scopes a;
     created_at := created_at a;
     updated_at := now |}.

(** [INSERT ... ON CONFLICT(merchant_domain) DO UPDATE SET ...]: on a
    conflict every column but [created_at] takes the new value. *)
Definition storeAuthorization (auth : MerchantAuthorization) : M unit :=
  fun w =>
    let row :=
      match merchant_authorizations w !! merchant_domain auth with
      | Some old => with_created_at (created_at old) auth
      | None => auth
      end in
    (set_merchant_authorizations
       (<[merchant_domain auth := row]> (merchant_authorizations w)) w,
     Return tt).

Definition getAuthorization (merchantDomain : jsstring)
  : M (option MerchantAuthorization) :=
  fun w =>
    (w, Return (with_merchant_domain merchantDomain
                  <$> merchant_authorizations w !! merchantDomain)).

Definition deleteAuthorization (merchantDomain : jsstring) : M unit :=
  fun w =>
    (set_merchant_authorizations
       (delete merchantDomain (merchant_authorizations w)) w,
     Return tt).

Definition updateAuthorizationTokens (merchantDomain : jsstring)
    (accessTokenEncrypted refreshTokenEncrypted : jsstring) (expiresAt : Z)
  : M unit :=
  await now <- Date_now ;;
  fun w =>
    (set_merchant_authorizations
       (alter (with_tokens accessTokenEncrypted refreshTokenEncrypted
                 expiresAt now)
              merchantDomain (merchant_authorizations w)) w,
     Return tt).

Definition with_cache_domain (d : jsstring) (c : EndpointCache)
  : EndpointCache :=
  {| domain := d; endpoint := endpoint c; capabilities := capabilities c;
     discovered_at := discovered_at c; ttl := ttl c |}.

(** [INSERT ... ON CONFLICT(domain) DO UPDATE SET ...]; the stored ttl is
    [cache.ttl || 86400]. *)
Definition cacheEndpoint (cache : EndpointCache) : M unit :=
  fun w =>
    let row :=
      {| domain := domain cache; endpoint := endpoint cache;
         capabilities := capabilities cache;
         discovered_at := discovered_at cache;
         ttl := if ttl cache =? 0 then 86400 else ttl cache |} in
    (set_endpoint_cache (<[domain cache := row]> (endpoint_cache w)) w,
     Return tt).

Definition getCachedEndpoint (d : jsstring) : M (option EndpointCache) :=
  fun w =>
    match endpoint_cache w !! d with
    | Some row =>
        (await now <- Date_now ;;
         let age := now - discovered_at row in
         if age >? ttl row * 1000 then ret None
         else ret (Some (with_cache_domain d row))) w
    | None => (w, Return None)
    end.

Definition storeEncryptionKey (salt key : jsstring) : M unit :=
  await now <- Date_now ;;
  fun w =>
    (set_encryption_keys
       (Some {| salt_hex := salt; key_hex := key; key_created_at := now |})
       w,
     Return tt).

Definition getEncryptionKey : M (option KeyRow) :=
  fun w => (w, Return (encryption_keys w)).

(* ================================================================== *)
(** * [config.ts] *)

Definition DEFAULT_CONFIG : SCPConfig :=
  {| dns_resolver := js "1.1.1.1";
     dns_cache_ttl := 86400;
     poll_interval := 2;
     max_poll_attempts := 150;
     token_refresh_threshold := 300;
     request_timeout := 30000;
     demo_mode := Some true;
     demo_endpoint := Some (js "https://demo.shoppercontextprotocol.io/v1") |}.

(** The object that [JSON.stringify(config)] writes and a later
    [JSON.parse] reads back. *)
Definition config_object (c : SCPConfig) : ConfigObject :=
  {| cfg_dns_resolver := Some (dns_resolver c);
     cfg_dns_cache_ttl := Some (dns_cache_ttl c);
     cfg_poll_interval := Some (poll_interval c);
     cfg_max_poll_attempts := Some (max_poll_attempts c);
     cfg_token_refresh_threshold := Some (token_refresh_threshold c);
     cfg_request_timeout := Some (request_timeout c);
     cfg_demo_mode := demo_mode c;
     cfg_demo_endpoint := demo_endpoint c |}.

(** [{ ...base, ...over }] *)
Definition spread (base : SCPConfig) (over : ConfigObject) : SCPConfig :=
  {| dns_resolver := default (dns_resolver base) (cfg_dns_resolver over);
     dns_cache_ttl := default (dns_cache_ttl base) (cfg_dns_cache_ttl over);
     poll_interval := default (poll_interval base) (cfg_poll_interval over);
     max_poll_attempts :=
       default (max_poll_attempts base) (cfg_max_poll_attempts over);
     token_refresh_threshold :=
       default (token_refresh_threshold base)
               (cfg_token_refresh_threshold over);
     request_timeout :=
       default (request_timeout base) (cfg_request_timeout over);
     demo_mode :=
       match cfg_demo_mode over with
       | Some b => Some b
       | None => demo_mode base
       end;
     demo_endpoint :=
       match cfg_demo_endpoint over with
       | Some e => Some e
       | None => demo_endpoint base
       end |}.

Definition loadConfig : M SCPConfig :=
  fun w =>
    match config_file w with
    | None =>
        (set_config_file (Some (Parsed (config_object DEFAULT_CONFIG))) w,
         Return DEFAULT_CONFIG)
    | Some Malformed => (w, Return DEFAULT_CONFIG)
    | Some (Parsed config) => (w, Return (spread DEFAULT_CONFIG config))
    end.

(** [process.env.SCP_TEST_ENDPOINT || null] *)
Definition getTestEndpointOverride : M (option jsstring) :=
  fun w =>
    (w, Return (match SCP_TEST_ENDPOINT w with
                | Some e => if truthy e then Some e else None
                | None => None
                end)).

Definition checkTestEndpoint (d : jsstring) : M (option jsstring) :=
  await override <- getTestEndpointOverride ;;
  match override with
  | Some e => ret (Some e)
  | None => ret None
  end.

(** [writeFileSync(CONFIG_PATH, JSON.stringify(config, null, 2))] *)
Definition saveConfig (config : SCPConfig) : M unit :=
  fun w =>
    (set_config_file (Some (Parsed (config_object config))) w, Return tt).

(** [config.demo_mode === true] on the loaded configuration. *)
Definition isDemoMode : M bool :=
  await config <- loadConfig ;;
  ret (bool_decide (demo_mode config = Some true)).

(* ================================================================== *)
(** * The program, over the primitives of Node's [crypto] module *)

Section Program.

(** AES-256-GCM as [createCipheriv] / [createDecipheriv] offer it:
    encryption yields the ciphertext and the authentication tag;
    decryption yields the plaintext, or nothing when [setAuthTag],
    [update] or [final] throws. *)
Variable gcm_encrypt :
  list byte -> list byte -> list byte -> list byte * list byte.
Variable gcm_decrypt :
  list byte -> list byte -> list byte -> list byte -> option (list byte).

(** [createHash('sha256').update(..).digest()] and
    [buf.toString('base64url')]. *)
Variable sha256 : list byte -> list byte.
Variable base64url : list byte -> jsstring.

(** ** [storage/encryption.ts] *)

Definition KEY_LENGTH : nat := 32.
Definition IV_LENGTH : nat := 16.
Definition SALT_LENGTH : nat := 32.

Definition set_key_cache (k : list byte) : M unit :=
  fun w => (set_masterKeyCache (Some k) w, Return tt).

Definition getMasterKey : M (list byte) :=
  fun w =>
    match masterKeyCache w with
    | Some k => (w, Return k)
    | None =>
        (await keyData <- getEncryptionKey ;;
         match keyData with
         | None =>
             await salt <- randomBytes SALT_LENGTH ;;
             await key <- randomBytes KEY_LENGTH ;;
             await _ <- storeEncryptionKey (hex_encode salt)
                                           (hex_encode key) ;;
             await _ <- set_key_cache key ;;
             ret key
         | Some row =>
             let k := hex_decode (key_hex row) in
             await _ <- set_key_cache k ;;
             ret k
         end) w
    end.

Definition initEncryption : M unit :=
  await _ <- getMasterKey ;;
  ret tt.

(** The key check of [createCipheriv] and [createDecipheriv] for
    ['aes-256-gcm']. *)
Definition check_key (key : list byte) : M unit :=
  if bool_decide (length key = KEY_LENGTH) then ret tt
  else throw (Error (js "Invalid key length")).

Definition encryptToken (token : jsstring) : M jsstring :=
  fun w =>
    match masterKeyCache w with
    | None =>
        (w, Throw (Error (js
           "Encryption not initialized - call initEncryption() first")))
    | Some key =>
        (await iv <- randomBytes IV_LENGTH ;;
         await _ <- check_key key ;;
         let sealed := gcm_encrypt key iv (utf8_encode token) in
         let encrypted := fst sealed in
         let authTag := snd sealed in
         ret (stringify_envelope (hex_encode iv) (hex_encode encrypted)
                                 (hex_encode authTag))) w
    end.

Definition decryptToken (encrypted : jsstring) : M jsstring :=
  fun w =>
    match masterKeyCache w with
    | None =>
        (w, Throw (Error (js
           "Encryption not initialized - call initEncryption() first")))
    | Some key =>
        match parse_envelope encrypted with
        | None => (w, Throw (Error (js "Unexpected token in JSON")))
        | Some parsed =>
            let iv := hex_decode (env_iv parsed) in
            let data := hex_decode (env_data parsed) in
            let authTag := hex_decode (env_tag parsed) in
            (await _ <- check_key key ;;
             match gcm_decrypt key iv data authTag with
             | Some decrypted => ret (utf8_decode decrypted)
             | None =>
                 throw (Error (js
                   "Unsupported state or unable to authenticate data"))
             end) w
        end
    end.

(** The self-test that [main] runs at startup. *)
Definition testEncryption : M bool :=
  try_catch
    (await _ <- initEncryption ;;
     await bytes <- randomBytes 16 ;;
     let testToken := js "test-token-" ++ hex_encode bytes in
     await encrypted <- encryptToken testToken ;;
     await decrypted <- decryptToken encrypted ;;
     ret (bool_decide (testToken = decrypted)))
    (fun _ => ret false).

(** ** [auth/pkce.ts] *)

Definition generateCodeVerifier : M jsstring :=
  await bytes <- randomBytes 32 ;;
  ret (base64url bytes).

Definition generateCodeChallenge (verifier : jsstring) : jsstring :=
  base64url (sha256 (utf8_encode verifier)).

Record PKCE := {
  pkce_code_verifier : jsstring;
  pkce_code_challenge : jsstring;
  pkce_code_challenge_method : jsstring
}.

Definition generatePKCE : M PKCE :=
  await code_verifier <- generateCodeVerifier ;;
  let code_challenge := generateCodeChallenge code_verifier in
  ret {| pkce_code_verifier := code_verifier;
         pkce_code_challenge := code_challenge;
         pkce_code_challenge_method := js "S256" |}.

Definition generateState : M jsstring :=
  await bytes <- randomBytes 32 ;;
  ret (base64url bytes).

(** ** [auth/oauth-client.ts] *)

Definition CLIENT_ID : jsstring := js "scp-mcp-server".
Definition CLIENT_NAME : jsstring := js "SCP MCP Server".
Definition REDIRECT_URI : jsstring := js "urn:ietf:wg:oauth:2.0:oob".

Definition as_authorization (p : Payload) : option AuthorizationResponse :=
  match p with AuthorizationDoc a => Some a | _ => None end.

(** What the poll loop sees of a body that is JSON of another shape:
    the cast to [PollResponse] checks nothing, [pollResponse.status] is
    [undefined], none of the three comparisons holds and no other field
    is read. The empty status stands for the missing one. *)
Definition without_status : PollResponse :=
  {| poll_status := []; poll_code := None; poll_expires_in := None;
     poll_reason := None; poll_error := None |}.

Definition as_poll (p : Payload) : option PollResponse :=
  match p with
  | BadJson => None
  | PollDoc a => Some a
  | _ => Some without_status
  end.

Definition as_token (p : Payload) : option TokenResponse :=
  match p with TokenDoc a => Some a | _ => None end.

Definition as_capabilities (p : Payload) : option SCPCapabilities :=
  match p with CapabilitiesDoc a => Some a | _ => None end.

(** [`${response.status} ${response.statusText}`] *)
Definition status_line (r : Response) : jsstring :=
  show_Z (status r) ++ js " " ++ statusText r.

Record InitiatedFlow := {
  authRequestId : jsstring;
  pollInterval : Z;
  codeVerifier : jsstring;
  flow_state : jsstring
}.

Definition initiateAuthorization (endpoint email domain : jsstring)
    (scopes : list jsstring) : M InitiatedFlow :=
  await pkce <- generatePKCE ;;
  await state <- generateState ;;
  let request :=
    {| email := email;
       client_id := CLIENT_ID;
       client_name := CLIENT_NAME;
       request_domain := domain;
       request_scopes := scopes;
       code_challenge := pkce_code_challenge pkce;
       code_challenge_method := pkce_code_challenge_method pkce;
       redirect_uri := REDIRECT_URI;
       state := state |} in
  await response <- fetch
    {| req_url := endpoint ++ js "/authorize/init";
       req_method := POST;
       req_headers := [(js "Content-Type", js "application/json")];
       req_body := JsonBody request;
       req_timeout := 30000 |} ;;
  if negb (ok response) then
    throw (Error (or_default (error_description_of response)
                    (js "Authorization failed: " ++ status_line response)))
  else
    await authResponse <- json_as as_authorization response ;;
    ret {| authRequestId := auth_request_id authResponse;
           pollInterval := auth_poll_interval authResponse;
           codeVerifier := pkce_code_verifier pkce;
           flow_state := state |}.

Definition poll_request (endpoint authRequestId : jsstring) : Request :=
  {| req_url := endpoint ++ js "/authorize/poll?auth_request_id="
                  ++ authRequestId ++ js "&client_id=" ++ CLIENT_ID;
     req_method := GET;
     req_headers := [(js "Accept", js "application/json")];
     req_body := NoBody;
     req_timeout := 10000 |}.

(** The [while (attempts < maxAttempts)] loop, by the number of attempts
    that remain. *)
Fixpoint poll_loop (remaining : nat) (endpoint authRequestId : jsstring)
    (pollInterval : Z) : M jsstring :=
  match remaining with
  | O =>
      throw (Error (js
        "Authorization timeout: maximum poll attempts reached"))
  | S remaining' =>
      await response <- fetch (poll_request endpoint authRequestId) ;;
      if negb (ok response) then
        throw (Error (js "Poll failed: " ++ status_line response))
      else
        await pollResponse <- json_as as_poll response ;;
        if bool_decide (poll_status pollResponse = js "authorized")
           && truthy (default [] (poll_code pollResponse))
        then ret (default [] (poll_code pollResponse))
        else if bool_decide (poll_status pollResponse = js "denied") then
          throw (Error (js "Authorization denied: "
                        ++ or_default (poll_reason pollResponse)
                                      (js "User declined")))
        else if bool_decide (poll_status pollResponse = js "expired") then
          throw (Error (js "Authorization request expired"))
        else
          await _ <- sleep (pollInterval * 1000) ;;
          poll_loop remaining' endpoint authRequestId pollInterval
  end.

(** [maxAttempts] and [pollInterval] have defaults 150 and 2. *)
Definition pollAuthorization (endpoint authRequestId : jsstring)
    (maxAttempts pollInterval : option Z) (domain : jsstring) : M jsstring :=
  poll_loop (Z.to_nat (default 150 maxAttempts)) endpoint authRequestId
            (default 2 pollInterval).

Definition token_request (endpoint : jsstring)
    (params : list (jsstring * jsstring)) : Request :=
  {| req_url := endpoint ++ js "/token";
     req_method := POST;
     req_headers :=
       [(js "Content-Type", js "application/x-www-form-urlencoded")];
     req_body := FormBody params;
     req_timeout := 30000 |}.

Definition exchangeCodeForTokens (endpoint code codeVerifier : jsstring)
  : M TokenResponse :=
  await response <- fetch (token_request endpoint
    [(js "grant_type", js "authorization_code");
     (js "code", code);
     (js "code_verifier", codeVerifier);
     (js "client_id", CLIENT_ID);
     (js "redirect_uri", REDIRECT_URI)]) ;;
  if negb (ok response) then
    throw (Error (or_default (error_description_of response)
                    (js "Token exchange failed: " ++ status_line response)))
  else json_as as_token response.

Definition refresh_request (endpoint refreshToken : jsstring) : Request :=
  token_request endpoint
    [(js "grant_type", js "refresh_token");
     (js "refresh_token", refreshToken);
     (js "client_id", CLIENT_ID)].

Definition refreshAccessToken (endpoint refreshToken : jsstring)
  : M TokenResponse :=
  await response <- fetch (refresh_request endpoint refreshToken) ;;
  if negb (ok response) then
    throw (Error (or_default (error_description_of response)
                    (js "Token refresh failed: " ++ status_line response)))
  else json_as as_token response.

Definition revokeToken (endpoint token : jsstring) : M unit :=
  await response <- fetch
    {| req_url := endpoint ++ js "/revoke";
       req_method := POST;
       req_headers :=
         [(js "Content-Type", js "application/x-www-form-urlencoded")];
       req_body := FormBody [(js "token", token);
                             (js "client_id", CLIENT_ID)];
       req_timeout := 30000 |} ;;
  if negb (ok response) then
    throw (Error (js "Token revocation failed: " ++ status_line response))
  else ret tt.

Definition completeAuthorizationFlow (endpoint email domain : jsstring)
    (scopes : list jsstring) (maxPollAttempts : option Z)
  : M (TokenResponse * list jsstring) :=
  await flow <- initiateAuthorization endpoint email domain scopes ;;
  await code <- pollAuthorization endpoint (authRequestId flow)
                  (Some (default 150 maxPollAttempts))
                  (Some (pollInterval flow)) domain ;;
  await tokenResponse <- exchangeCodeForTokens endpoint code
                           (codeVerifier flow) ;;
  ret (tokenResponse, split_on 32 (scope tokenResponse)).

(** ** [discovery/dns-lookup.ts] *)

Definition DNS_QUERY_PREFIX : jsstring := js "_scp._tcp.".

(** [txt.match(/endpoint=(https:\/\/[^\s]+)/)] and the read of group 1:
    the leftmost position where the literal is followed by at least one
    unit that is not white space; the group runs to the next white
    space. *)
Definition match_endpoint_here (s : jsstring) : option jsstring :=
  match strip_prefix (js "endpoint=https://") s with
  | Some rest =>
      match take_nonspace rest with
      | [] => None
      | run => Some (js "https://" ++ run)
      end
  | None => None
  end.

Fixpoint match_endpoint (s : jsstring) : option jsstring :=
  match match_endpoint_here s with
  | Some m => Some m
  | None =>
      match s with
      | [] => None
      | _ :: s' => match_endpoint s'
      end
  end.

(** The [for (const record of records)] loop. *)
Fixpoint scan_records (records : list (list jsstring)) : option jsstring :=
  match records with
  | [] => None
  | record :: rest =>
      let txt := concat record in
      if startsWith (js "v=scp1") txt then
        match match_endpoint txt with
        | Some m => Some m
        | None => scan_records rest
        end
      else scan_records rest
  end.

Definition tryDNSDiscovery (domain : jsstring) : M (option jsstring) :=
  let query := DNS_QUERY_PREFIX ++ domain in
  try_catch
    (await records <- resolveTxt query ;;
     ret (scan_records records))
    (fun error =>
       if bool_decide (code error = Some (js "ENOTFOUND"))
          || bool_decide (code error = Some (js "ENODATA"))
       then ret None
       else throw error).

(** [data.endpoint] of a body read [as any]: another document has no
    such field. *)
Definition as_any_endpoint (p : Payload) : option (option jsstring) :=
  match p with
  | BadJson => None
  | WellKnownDoc e => Some e
  | _ => Some None
  end.

Definition well_known_request (domain : jsstring) : Request :=
  {| req_url := js "https://" ++ domain
                  ++ js "/.well-known/customer-context-protocol";
     req_method := GET;
     req_headers := [(js "Accept", js "application/json")];
     req_body := NoBody;
     req_timeout := 5000 |}.

Definition header_request (domain : jsstring) : Request :=
  {| req_url := js "https://" ++ domain ++ js "/";
     req_method := HEAD;
     req_headers := [];
     req_body := NoBody;
     req_timeout := 5000 |}.

(** A value that passes an [if (x)] test on an optional string. *)
Definition truthy_string (v : option jsstring) : option jsstring :=
  match v with
  | Some s => if truthy s then Some s else None
  | None => None
  end.

Definition tryWellKnown (domain : jsstring) : M (option jsstring) :=
  try_catch
    (await response <- fetch (well_known_request domain) ;;
     if ok response then
       await data <- json_as as_any_endpoint response ;;
       ret (truthy_string data)
     else ret None)
    (fun _ => ret None).

Definition tryHeader (domain : jsstring) : M (option jsstring) :=
  try_catch
    (await response <- fetch (header_request domain) ;;
     ret (truthy_string (headers_get (js "SCP-Endpoint")
                                      (headers response))))
    (fun _ => ret None).

Definition tryFallbackDiscovery (domain : jsstring) : M (option jsstring) :=
  await wellKnown <- tryWellKnown domain ;;
  match wellKnown with
  | Some e => ret (Some e)
  | None => tryHeader domain
  end.

Definition discoverSCPEndpoint (d : jsstring) : M (option jsstring) :=
  await testEndpoint <- checkTestEndpoint d ;;
  match testEndpoint with
  | Some e => ret (Some e)
  | None =>
      await config <- loadConfig ;;
      if default false (demo_mode config) then
        ret (Some (or_default (demo_endpoint config)
                     (js "https://demo.shoppercontextprotocol.io/v1")))
      else
        await cached <- getCachedEndpoint d ;;
        match cached with
        | Some c => ret (Some (endpoint c))
        | None =>
            await dnsEndpoint <- tryDNSDiscovery d ;;
            match truthy_string dnsEndpoint with
            | Some e =>
                await now <- Date_now ;;
                await _ <- cacheEndpoint
                  {| domain := d; endpoint := e; capabilities := None;
                     discovered_at := now; ttl := 86400 |} ;;
                ret (Some e)
            | None =>
                await fallbackEndpoint <- tryFallbackDiscovery d ;;
                match truthy_string fallbackEndpoint with
                | Some e =>
                    await now <- Date_now ;;
                    await _ <- cacheEndpoint
                      {| domain := d; endpoint := e; capabilities := None;
                         discovered_at := now; ttl := 86400 |} ;;
                    ret (Some e)
                | None => ret None
                end
            end
        end
  end.

Definition fetchCapabilities (endpoint : jsstring) : M SCPCapabilities :=
  await response <- fetch
    {| req_url := endpoint ++ js "/capabilities";
       req_method := GET;
       req_headers := [(js "Accept", js "application/json")];
       req_body := NoBody;
       req_timeout := 10000 |} ;;
  if negb (ok response) then
    throw (Error (js "Failed to fetch capabilities: "
                  ++ status_line response))
  else json_as as_capabilities response.

Definition discoverWithCapabilities (d : jsstring)
  : M (option (jsstring * option SCPCapabilities)) :=
  await found <- discoverSCPEndpoint d ;;
  match truthy_string found with
  | None => ret None
  | Some e =>
      try_catch
        (await caps <- fetchCapabilities e ;;
         await now <- Date_now ;;
         await _ <- cacheEndpoint
           {| domain := d; endpoint := e; capabilities := Some caps;
              discovered_at := now; ttl := 86400 |} ;;
         ret (Some (e, Some caps)))
        (fun _ => ret (Some (e, None)))
  end.

(** ** [auth/token-manager.ts] *)

Definition TOKEN_REFRESH_THRESHOLD : Z := 300000.

Definition refreshTokenIfNeeded (auth : MerchantAuthorization) : M unit :=
  await refreshToken <- decryptToken (refresh_token_encrypted auth) ;;
  try_catch
    (await tokenResponse <- refreshAccessToken (scp_endpoint auth)
                              refreshToken ;;
     await accessTokenEncrypted <-
       encryptToken (access_token tokenResponse) ;;
     await refreshTokenEncrypted <-
       encryptToken (refresh_token tokenResponse) ;;
     await now <- Date_now ;;
     let expiresAt := now + expires_in tokenResponse * 1000 in
     updateAuthorizationTokens (merchant_domain auth) accessTokenEncrypted
       refreshTokenEncrypted expiresAt)
    (fun error =>
       throw (Error (js "Failed to refresh token for "
                     ++ merchant_domain auth ++ js ": " ++ message error))).

Definition getValidAccessToken (merchantDomain : jsstring) : M jsstring :=
  await found <- getAuthorization merchantDomain ;;
  match found with
  | None =>
      throw (Error (js "No authorization found for " ++ merchantDomain))
  | Some auth =>
      await now <- Date_now ;;
      let timeUntilExpiry := expires_at auth - now in
      if timeUntilExpiry <? TOKEN_REFRESH_THRESHOLD then
        await _ <- refreshTokenIfNeeded auth ;;
        await updated <- getAuthorization merchantDomain ;;
        match updated with
        | None => throw (Error (js "Authorization lost after refresh"))
        | Some updatedAuth =>
            decryptToken (access_token_encrypted updatedAuth)
        end
      else decryptToken (access_token_encrypted auth)
  end.

Definition hasValidAuthorization (merchantDomain : jsstring) : M bool :=
  await found <- getAuthorization merchantDomain ;;
  match found with
  | None => ret false
  | Some auth =>
      await now <- Date_now ;;
      ret (expires_at auth >? now)
  end.

(** The result of [getAuthorizationInfo]: the record without its two
    token fields; every field but [authorized] is absent when there is
    no record. *)
Record AuthorizationInfo := {
  authorized : bool;
  info_customer_email : option jsstring;
  info_customer_id : option jsstring;
  info_scopes : option (list jsstring);
  info_authorized_at : option Z;
  info_expires_at : option Z
}.

Definition getAuthorizationInfo (merchantDomain : jsstring)
  : M AuthorizationInfo :=
  await found <- getAuthorization merchantDomain ;;
  match found with
  | None =>
      ret {| authorized := false; info_customer_email := None;
             info_customer_id := None; info_scopes := None;
             info_authorized_at := None; info_expires_at := None |}
  | Some auth =>
      ret {| authorized := true;
             info_customer_email := Some (customer_email auth);
             info_customer_id := Some (customer_id auth);
             info_scopes := Some (scopes auth);
             info_authorized_at := Some (created_at auth);
             info_expires_at := Some (expires_at auth) |}
  end.

(** ** The tool handlers of [server.ts] *)

(** The text of the single content item a handler returns. *)
Record ToolResult := { text : jsstring }.

Definition invalid_email_text (domain email : jsstring) : jsstring :=
  [0x274C] ++ js " Invalid email address: " ++ email ++ [10; 10]
  ++ js "Please use a REAL email address, not an example one." ++ [10; 10]
  ++ js "Ask the user: " ++ [dquote]
  ++ js "What email address do you use with " ++ domain ++ js "?"
  ++ [dquote] ++ [10; 10]
  ++ js "Then call scp_authorize again with their actual email address.".

Definition already_authorized_text (domain : jsstring)
    (existing : MerchantAuthorization) : jsstring :=
  [0x2713] ++ js " Already authorized with " ++ domain ++ [10]
  ++ js "Email: " ++ customer_email existing ++ [10]
  ++ js "Scopes: " ++ join (js ", ") (scopes existing).

Definition revoke_first_text (domain email : jsstring)
    (existing : MerchantAuthorization) : jsstring :=
  [0x26A0; 0xFE0F] ++ js " Already authorized with " ++ domain
  ++ js " using " ++ customer_email existing ++ js "." ++ [10; 10]
  ++ js "To authorize with a different email (" ++ email
  ++ js "), please revoke the existing authorization first:" ++ [10]
  ++ js "scp_revoke_authorization(domain=" ++ [dquote] ++ domain
  ++ [dquote] ++ js ")" ++ [10; 10]
  ++ js "Then try authorizing again.".

(** [existingScopes.size === requestedScopes.size &&
     [...requestedScopes].every(s => existingScopes.has(s))] *)
Definition scopes_match (existing requested : list jsstring) : bool :=
  let existingScopes := js_set existing in
  let requestedScopes := js_set requested in
  bool_decide (length existingScopes = length requestedScopes)
  && forallb (fun s => set_has s existingScopes) requestedScopes.

(** The part of [handleAuthorize] after the checks against an existing
    record: discovery, scope validation, the flow, and the upsert. *)
Definition authorize_flow (domain email : jsstring) (scopes : list jsstring)
    (existing : option MerchantAuthorization) : M ToolResult :=
  await discovery <- discoverWithCapabilities domain ;;
  match discovery with
  | None =>
      throw (Error (js
        "Could not discover Shopper Context Protocol endpoint for "
        ++ domain))
  | Some (endpoint, capabilities) =>
      let unsupported :=
        match capabilities with
        | Some caps =>
            match scopes_supported caps with
            | Some supported =>
                filter (fun s => s ∉ supported) scopes
            | None => []
            end
        | None => []
        end in
      if negb (bool_decide (unsupported = [])) then
        throw (Error (js "Unsupported scopes: "
                      ++ join (js ", ") unsupported))
      else
        await flow <- completeAuthorizationFlow endpoint email domain
                        scopes None ;;
        let tokenResponse := fst flow in
        await now <- Date_now ;;
        await accessTokenEncrypted <-
          encryptToken (access_token tokenResponse) ;;
        await refreshTokenEncrypted <-
          encryptToken (refresh_token tokenResponse) ;;
        await _ <- storeAuthorization
          {| merchant_domain := domain;
             scp_endpoint := endpoint;
             customer_id := token_customer_id tokenResponse;
             customer_email := token_email tokenResponse;
             access_token_encrypted := accessTokenEncrypted;
             refresh_token_encrypted := refreshTokenEncrypted;
             expires_at := now + expires_in tokenResponse * 1000;
             scopes := split_on 32 (scope tokenResponse);
             created_at :=
               match existing with
               | Some e => created_at e
               | None => now
               end;
             updated_at := now |} ;;
        let action :=
          match existing with
          | Some _ => js "Re-authorized"
          | None => js "Connected to"
          end in
        ret {| text := [0x2713] ++ js " " ++ action ++ js " " ++ domain
                 ++ js "!" ++ [10] ++ js "Granted scopes: "
                 ++ scope tokenResponse ++ [10] ++ js "Customer: "
                 ++ token_email tokenResponse |}
  end.

(** The guard on example addresses at the head of [handleAuthorize]. *)
Definition is_example_email (email : jsstring) : bool :=
  endsWith (js "@example.com") email || includes (js "example") email.

(** [requested] is the [scopes] argument of the handler. *)
Definition handleAuthorize (domain email : jsstring)
    (requested : list jsstring) : M ToolResult :=
  if is_example_email email
  then ret {| text := invalid_email_text domain email |}
  else
    await existing <- getAuthorization domain ;;
    match existing with
    | Some e =>
        if scopes_match (scopes e) requested
           && bool_decide (customer_email e = email)
        then ret {| text := already_authorized_text domain e |}
        else if negb (bool_decide (customer_email e = email))
        then ret {| text := revoke_first_text domain email e |}
        else authorize_flow domain email requested existing
    | None => authorize_flow domain email requested existing
    end.

Definition handleRevokeAuthorization (domain : jsstring) : M ToolResult :=
  await found <- getAuthorization domain ;;
  match found with
  | None => throw (Error (js "No authorization found for " ++ domain))
  | Some auth =>
      await _ <- try_catch
        (await accessToken <- getValidAccessToken domain ;;
         revokeToken (scp_endpoint auth) accessToken)
        (fun _ => ret tt) ;;
      await _ <- deleteAuthorization domain ;;
      ret {| text := [0x2713] ++ js " Revoked authorization for "
                       ++ domain |}
  end.

(** ** The discovery chain, in the words of the specification

    Six sources in priority order; each either hits with an endpoint or
    misses. A hit of the three network sources is written back into the
    cache. *)

Definition remember_endpoint (d : jsstring) (found : option jsstring)
  : M (option jsstring) :=
  match truthy_string found with
  | Some e =>
      await now <- Date_now ;;
      await _ <- cacheEndpoint
        {| domain := d; endpoint := e; capabilities := None;
           discovered_at := now; ttl := 86400 |} ;;
      ret (Some e)
  | None => ret None
  end.

Definition source_override (d : jsstring) : M (option jsstring) :=
  checkTestEndpoint d.

Definition source_demo : M (option jsstring) :=
  await config <- loadConfig ;;
  if default false (demo_mode config) then
    ret (Some (or_default (demo_endpoint config)
                 (js "https://demo.shoppercontextprotocol.io/v1")))
  else ret None.

Definition source_cache (d : jsstring) : M (option jsstring) :=
  await cached <- getCachedEndpoint d ;;
  ret (endpoint <$> cached).

Definition source_dns (d : jsstring) : M (option jsstring) :=
  await found <- tryDNSDiscovery d ;;
  remember_endpoint d found.

Definition source_well_known (d : jsstring) : M (option jsstring) :=
  await found <- tryWellKnown d ;;
  remember_endpoint d found.

Definition source_header (d : jsstring) : M (option jsstring) :=
  await found <- tryHeader d ;;
  remember_endpoint d found.

Definition discovery_chain (d : jsstring) : list (M (option jsstring)) :=
  [source_override d; source_demo; source_cache d; source_dns d;
   source_well_known d; source_header d].

(** Run the sources in order and stop at the first hit. *)
Fixpoint first_hit (sources : list (M (option jsstring)))
  : M (option jsstring) :=
  match sources with
  | [] => ret None
  | source :: rest =>
      await found <- source ;;
      match found with
      | Some e => ret (Some e)
      | None => first_hit rest
      end
  end.



(** ** The poll loop, in the words of the specification *)

(** An answer that is neither authorized with a code, nor denied, nor
    expired. *)
Definition still_pending (p : PollResponse) : Prop :=
  ~ (poll_status p = js "authorized"
     /\ truthy (default [] (poll_code p)) = true)
  /\ poll_status p <> js "denied"
  /\ poll_status p <> js "expired".

(** [n] rounds of one poll followed by one wait. *)
Definition poll_rounds (n : nat) (req : Request) (ms : Z) : list Event :=
  concat (replicate n [EvFetch req; EvTimeout ms]).

(** What a JSON body tells the poll loop: a poll document tells what it
    holds, and a document of any other shape tells nothing, as it has
    no status. A body that is not JSON is no answer. *)
Inductive tells : Payload -> PollResponse -> Prop :=
| tells_poll p : tells (PollDoc p) p
| tells_nothing doc :
    doc <> BadJson -> (forall p, doc <> PollDoc p) ->
    tells doc without_status.

(** After the events [sofar] the server answers [req] with a successful
    response whose body tells [p]. *)
Definition answers (w : World) (sofar : list Event) (req : Request)
    (p : PollResponse) : Prop :=
  exists r,
    server (outside w) (trace w ++ sofar) req = Resolved r
    /\ ok r = true
    /\ tells (payload r) p.

(** ** Envelopes, in the words of the specification *)

(** The nonce that [encryptToken] draws in world [w]. *)
Definition fresh_iv (w : World) : list byte :=
  resize IV_LENGTH x00 (entropy (outside w) (trace w) IV_LENGTH).

(** The envelope of a token under a key and a nonce, with the
    ciphertext and the tag passed through [on_data] and [on_tag] before
    they are written (the identity for an untouched envelope). *)
Definition envelope_with (on_data on_tag : list byte -> list byte)
    (key iv : list byte) (token : jsstring) : jsstring :=
  let sealed := gcm_encrypt key iv (utf8_encode token) in
  stringify_envelope (hex_encode iv) (hex_encode (on_data (fst sealed)))
                     (hex_encode (on_tag (snd sealed))).

Definition envelope_of (key iv : list byte) (token : jsstring) : jsstring :=
  envelope_with (fun data => data) (fun tag => tag) key iv token.

(** ** Records of well-formed text *)

(** Every text column of the record is a well-formed string. *)
Definition well_formed_record (a : MerchantAuthorization) : Prop :=
  well_formed_utf16 (merchant_domain a) = true
  /\ well_formed_utf16 (scp_endpoint a) = true
  /\ well_formed_utf16 (customer_id a) = true
  /\ well_formed_utf16 (customer_email a) = true
  /\ well_formed_utf16 (access_token_encrypted a) = true
  /\ well_formed_utf16 (refresh_token_encrypted a) = true
  /\ Forall (fun s => well_formed_utf16 s = true) (scopes a).

(** ** Frames *)

(** [w'] differs from [w] at most in its trace: the files, the three
    tables and the key cache are as they were. *)
Definition only_trace (w w' : World) : Prop :=
  outside w' = outside w
  /\ SCP_TEST_ENDPOINT w' = SCP_TEST_ENDPOINT w
  /\ config_file w' = config_file w
  /\ merchant_authorizations w' = merchant_authorizations w
  /\ endpoint_cache w' = endpoint_cache w
  /\ encryption_keys w' = encryption_keys w
  /\ masterKeyCache w' = masterKeyCache w.

(** An event of the poll loop: the poll request or a wait. *)
Definition poll_event (req : Request) (ms : Z) (ev : Event) : Prop :=
  ev = EvFetch req \/ ev = EvTimeout ms.

(** ** The authorization flow, in the words of the protocol *)

(** The verifier that [generatePKCE] draws in world [w]. *)
Definition drawn_verifier (w : World) : jsstring :=
  base64url (resize 32 x00 (entropy (outside w) (trace w) 32)).

(** The state value that [generateState] draws right after it. *)
Definition drawn_state (w : World) : jsstring :=
  base64url (resize 32 x00
               (entropy (outside w) (trace w ++ [EvRandomBytes 32]) 32)).

(** The request that [initiateAuthorization] sends. *)
Definition init_request (endpoint email domain : jsstring)
    (scopes : list jsstring) (verifier state : jsstring) : Request :=
  {| req_url := endpoint ++ js "/authorize/init";
     req_method := POST;
     req_headers := [(js "Content-Type", js "application/json")];
     req_body := JsonBody
       {| email := email;
          client_id := CLIENT_ID;
          client_name := CLIENT_NAME;
          request_domain := domain;
          request_scopes := scopes;
          code_challenge := base64url (sha256 (utf8_encode verifier));
          code_challenge_method := js "S256";
          redirect_uri := REDIRECT_URI;
          state := state |};
     req_timeout := 30000 |}.

(** The request that [exchangeCodeForTokens] sends. *)
Definition exchange_request (endpoint code codeVerifier : jsstring)
  : Request :=
  token_request endpoint
    [(js "grant_type", js "authorization_code");
     (js "code", code);
     (js "code_verifier", codeVerifier);
     (js "client_id", CLIENT_ID);
     (js "redirect_uri", REDIRECT_URI)].

(** The message of a failed call to a token or initiation endpoint:
    the server's [error_description] when it is a non-empty string,
    else the given prefix with the status line. *)
Definition endpoint_failure (prefix : jsstring) (r : Response) : JSError :=
  Error match error_description_of r with
        | Some (c :: description) => c :: description
        | _ => prefix ++ show_Z (status r) ++ js " " ++ statusText r
        end.

(** The request that [fetchCapabilities] sends. *)
Definition capabilities_request (endpoint : jsstring) : Request :=
  {| req_url := endpoint ++ js "/capabilities";
     req_method := GET;
     req_headers := [(js "Accept", js "application/json")];
     req_body := NoBody;
     req_timeout := 10000 |}.

(** The configuration file switches demo mode off. *)
Definition demo_disabled (w : World) : Prop :=
  exists c, config_file w = Some (Parsed c) /\ cfg_demo_mode c = Some false.

(** A DNS failure that [tryDNSDiscovery] reads as "no record". *)
Definition dns_miss (err : JSError) : bool :=
  bool_decide (code err = Some (js "ENOTFOUND"))
  || bool_decide (code err = Some (js "ENODATA")).

(** [w'] differs from [w] at most in its trace and in the record of
    domain [d]. *)
Definition only_row (d : jsstring) (w w' : World) : Prop :=
  outside w' = outside w
  /\ SCP_TEST_ENDPOINT w' = SCP_TEST_ENDPOINT w
  /\ config_file w' = config_file w
  /\ endpoint_cache w' = endpoint_cache w
  /\ encryption_keys w' = encryption_keys w
  /\ masterKeyCache w' = masterKeyCache w
  /\ forall d', d' <> d ->
       merchant_authorizations w' !! d' = merchant_authorizations w !! d'.

(** A computation that keeps relation [R] between the world it starts
    in and the world it ends in, whether it returns or throws. *)
Definition keeps {A} (R : World -> World -> Prop) (c : M A) : Prop :=
  forall w, R w (fst (c w)).

(** The request that [revokeToken] sends. *)
Definition revoke_request (endpoint token : jsstring) : Request :=
  {| req_url := endpoint ++ js "/revoke";
     req_method := POST;
     req_headers :=
       [(js "Content-Type", js "application/x-www-form-urlencoded")];
     req_body := FormBody [(js "token", token); (js "client_id", CLIENT_ID)];
     req_timeout := 30000 |}.

(** What discovery for domain [d] may change: the trace, the cache
    row of [d], and the configuration file, which it creates with the
    defaults when there is none. *)
Definition discovery_frame (d : jsstring) (w w' : World) : Prop :=
  outside w' = outside w
  /\ SCP_TEST_ENDPOINT w' = SCP_TEST_ENDPOINT w
  /\ merchant_authorizations w' = merchant_authorizations w
  /\ encryption_keys w' = encryption_keys w
  /\ masterKeyCache w' = masterKeyCache w
  /\ (config_file w' = config_file w
      \/ (config_file w = None
          /\ config_file w'
             = Some (Parsed (config_object DEFAULT_CONFIG))))
  /\ forall d', d' <> d -> endpoint_cache w' !! d' = endpoint_cache w !! d'.

(* ================================================================== *)
(** * Properties *)

(** ** Buffers and codecs *)

Lemma byte_to_Z_range b : 0 <= byte_to_Z b < 256.
Proof.
  unfold byte_to_Z. pose proof (Byte.to_N_bounded b). lia.
Qed.

Lemma byte_to_of_Z z : 0 <= z < 256 -> byte_to_Z (byte_of_Z z) = z.
Proof.
  intros Hz. unfold byte_to_Z, byte_of_Z.
  rewrite Z.mod_small by lia.
  destruct (Byte.of_N (Z.to_N z)) as [b|] eqn:E.
  - apply Byte.to_of_N in E. lia.
  - apply Byte.of_N_None_iff in E. lia.
Qed.

Lemma byte_of_to_Z b : byte_of_Z (byte_to_Z b) = b.
Proof.
  pose proof (byte_to_Z_range b) as Hr.
  unfold byte_of_Z, byte_to_Z in *.
  rewrite Z.mod_small by lia. rewrite N2Z.id, Byte.of_to_N. reflexivity.
Qed.

Lemma hex_value_digit n : 0 <= n < 16 -> hex_value (hex_digit n) = Some n.
Proof.
  intros Hn. unfold hex_value, hex_digit.
  destruct (Z.ltb_spec n 10).
  - replace ((48 <=? 48 + n) && (48 + n <=? 57)) with true; [f_equal; lia|].
    symmetry. apply andb_true_iff. split; apply Z.leb_le; lia.
  - replace ((48 <=? 87 + n) && (87 + n <=? 57)) with false.
    2:{ symmetry. apply andb_false_iff. right. apply Z.leb_gt. lia. }
    replace ((97 <=? 87 + n) && (87 + n <=? 102)) with true; [f_equal; lia|].
    symmetry. apply andb_true_iff. split; apply Z.leb_le; lia.
Qed.

Lemma hex_decode_encode bs : hex_decode (hex_encode bs) = bs.
Proof.
  induction bs as [|b bs IH]; [reflexivity|].
  pose proof (byte_to_Z_range b) as Hr.
  cbn [hex_encode hex_decode].
  rewrite !hex_value_digit.
  - rewrite IH. f_equal.
    rewrite <- (byte_of_to_Z b) at 3. f_equal.
    pose proof (Z.div_mod (byte_to_Z b) 16). lia.
  - apply Z.mod_pos_bound. lia.
  - split; [apply Z.div_pos; lia | apply Z.div_lt_upper_bound; lia].
Qed.

Ltac zbool :=
  unfold is_continuation, is_high_surrogate, is_low_surrogate, in_range in *;
  repeat (match goal with
          | |- context [?a =? ?b] => destruct (Z.eqb_spec a b)
          | |- context [?a <? ?b] => destruct (Z.ltb_spec a b)
          | |- context [?a <=? ?b] => destruct (Z.leb_spec a b)
          end; cbn [andb orb negb]; try lia).

Ltac euclid c n :=
  let q := fresh "q" in
  let r := fresh "r" in
  let Hq := fresh "Hq" in
  let Hr := fresh "Hr" in
  pose proof (Z.div_mod c n ltac:(lia)) as Hq;
  pose proof (Z.mod_pos_bound c n ltac:(lia)) as Hr;
  set (q := c / n) in *; set (r := c mod n) in *;
  clearbody q r.

Ltac decode_head :=
  match goal with
  | |- context [utf8_decode (?b :: ?t)] =>
      let t1 := fresh "t" in
      let E := fresh "E" in
      remember t as t1 eqn:E; cbn [utf8_decode]; cbv zeta;
      rewrite ?byte_to_of_Z by lia; zbool; subst t1; cbv beta match
  end.

Ltac decode_next :=
  rewrite ?byte_to_of_Z by lia; zbool; cbv beta match.

Lemma utf8_decode_1 c rest :
  0 <= c < 0x80 -> utf8_decode (byte_of_Z c :: rest) = c :: utf8_decode rest.
Proof.
  intros Hc. decode_head. reflexivity.
Qed.

Lemma utf8_decode_2 c rest :
  0x80 <= c < 0x800 ->
  utf8_decode (utf8_bytes2 c ++ rest) = c :: utf8_decode rest.
Proof.
  intros Hc. unfold utf8_bytes2. cbn [app].
  euclid c 64.
  decode_head. decode_next. f_equal. lia.
Qed.

Lemma utf8_decode_3 c rest :
  0x800 <= c < 0x10000 -> ~ (0xD800 <= c <= 0xDFFF) ->
  utf8_decode (utf8_bytes3 c ++ rest) = c :: utf8_decode rest.
Proof.
  intros Hc Hs. unfold utf8_bytes3. cbn [app].
  replace (c / 4096) with (c / 64 / 64) by (rewrite Z.div_div by lia; reflexivity).
  euclid c 64. euclid q 64.
  decode_head; decode_next; decode_next; f_equal; lia.
Qed.

Lemma utf8_decode_4 cp rest :
  0x10000 <= cp < 0x110000 ->
  utf8_decode (utf8_bytes4 cp ++ rest)
  = units_of_code_point cp ++ utf8_decode rest.
Proof.
  intros Hc. unfold utf8_bytes4. cbn [app].
  replace (cp / 262144) with (cp / 64 / 64 / 64)
    by (rewrite !Z.div_div by lia; reflexivity).
  replace (cp / 4096) with (cp / 64 / 64)
    by (rewrite !Z.div_div by lia; reflexivity).
  euclid cp 64. euclid q 64. euclid q0 64.
  decode_head; decode_next; decode_next; decode_next; f_equal; f_equal; lia.
Qed.

Lemma units_of_pair c d :
  0xD800 <= c <= 0xDBFF -> 0xDC00 <= d <= 0xDFFF ->
  units_of_code_point (0x10000 + (c - 0xD800) * 0x400 + (d - 0xDC00)) = [c; d].
Proof.
  intros Hc Hd. unfold units_of_code_point.
  destruct (Z.ltb_spec (0x10000 + (c - 0xD800) * 0x400 + (d - 0xDC00)) 0x10000); [lia|].
  replace (0x10000 + (c - 0xD800) * 0x400 + (d - 0xDC00) - 0x10000)
    with ((d - 0xDC00) + (c - 0xD800) * 0x400) by lia.
  rewrite Z.div_add by lia. rewrite Z.mod_add by lia.
  rewrite Z.div_small by lia. rewrite Z.mod_small by lia.
  f_equal; [lia | f_equal; lia].
Qed.

Lemma utf8_roundtrip_le n : forall s,
  (length s <= n)%nat -> well_formed_utf16 s = true ->
  utf8_decode (utf8_encode s) = s.
Proof.
  induction n as [|n IH]; intros s Hlen Hwf.
  - destruct s; [reflexivity | cbn in Hlen; lia].
  - destruct s as [|c s]; [reflexivity|].
    cbn [length] in Hlen. cbn [well_formed_utf16] in Hwf.
    cbn [utf8_encode].
    destruct (is_high_surrogate c) eqn:Hh.
    + destruct s as [|d s]; [discriminate|].
      apply andb_true_iff in Hwf as [Hl Hwf].
      rewrite Hl.
      assert (0xD800 <= c <= 0xDBFF) as Hc by (revert Hh; zbool).
      assert (0xDC00 <= d <= 0xDFFF) as Hd by (revert Hl; zbool).
      destruct (Z.ltb_spec c 0x80); [lia|].
      destruct (Z.ltb_spec c 0x800); [lia|].
      rewrite utf8_decode_4 by lia.
      rewrite units_of_pair by lia.
      cbn [app]. rewrite IH; [reflexivity | cbn [length] in Hlen; lia | exact Hwf].
    + apply andb_true_iff in Hwf as [Hr Hwf].
      apply andb_true_iff in Hr as [Hr Hl].
      apply negb_true_iff in Hl. rewrite Hl.
      assert (0 <= c <= 0xFFFF) as Hc by (revert Hr; zbool).
      assert (~ (0xD800 <= c <= 0xDFFF)) as Hns by (revert Hh Hl; zbool).
      destruct (Z.ltb_spec c 0x80).
      * rewrite utf8_decode_1 by lia. rewrite IH; [reflexivity | lia | exact Hwf].
      * destruct (Z.ltb_spec c 0x800).
        -- rewrite utf8_decode_2 by lia. rewrite IH; [reflexivity | lia | exact Hwf].
        -- rewrite utf8_decode_3 by lia. rewrite IH; [reflexivity | lia | exact Hwf].
Qed.

Lemma utf8_roundtrip s :
  well_formed_utf16 s = true -> utf8_decode (utf8_encode s) = s.
Proof. apply (utf8_roundtrip_le (length s)). lia. Qed.

Lemma utf8_decode_replacement rest :
  utf8_decode (replacement_bytes ++ rest) = 0xFFFD :: utf8_decode rest.
Proof.
  change replacement_bytes with (utf8_bytes3 0xFFFD).
  apply utf8_decode_3; lia.
Qed.

(** Reading back what the ['utf8'] encoding wrote gives the string
    with its lone surrogates replaced. *)
Lemma utf8_reread_le n : forall s,
  (length s <= n)%nat -> Forall (fun c => 0 <= c <= 0xFFFF) s ->
  utf8_decode (utf8_encode s) = to_well_formed s.
Proof.
  induction n as [|n IH]; intros s Hlen Hunits.
  - destruct s; [reflexivity | cbn in Hlen; lia].
  - destruct s as [|c s]; [reflexivity|].
    cbn [length] in Hlen. inversion Hunits as [|? ? Hc Hrest]; subst.
    cbn [utf8_encode to_well_formed].
    destruct (is_high_surrogate c) eqn:Hh.
    + assert (0xD800 <= c <= 0xDBFF) as Hhi by (revert Hh; zbool).
      destruct (Z.ltb_spec c 0x80); [lia|].
      destruct (Z.ltb_spec c 0x800); [lia|].
      destruct s as [|d s].
      * rewrite <- (app_nil_r replacement_bytes).
        rewrite utf8_decode_replacement. reflexivity.
      * destruct (is_low_surrogate d) eqn:Hl.
        -- assert (0xDC00 <= d <= 0xDFFF) as Hd by (revert Hl; zbool).
           rewrite utf8_decode_4 by lia. rewrite units_of_pair by lia.
           cbn [app]. inversion Hrest; subst.
           rewrite IH; [reflexivity | cbn [length] in Hlen; lia | assumption].
        -- rewrite utf8_decode_replacement.
           rewrite IH; [reflexivity | lia | assumption].
    + destruct (is_low_surrogate c) eqn:Hl.
      * assert (0xDC00 <= c <= 0xDFFF) as Hlo by (revert Hl; zbool).
        destruct (Z.ltb_spec c 0x80); [lia|].
        destruct (Z.ltb_spec c 0x800); [lia|].
        rewrite utf8_decode_replacement.
        rewrite IH; [reflexivity | lia | assumption].
      * assert (~ (0xD800 <= c <= 0xDFFF)) as Hns by (revert Hh Hl; zbool).
        destruct (Z.ltb_spec c 0x80).
        -- rewrite utf8_decode_1 by lia.
           rewrite IH; [reflexivity | lia | assumption].
        -- destruct (Z.ltb_spec c 0x800).
           ++ rewrite utf8_decode_2 by lia.
              rewrite IH; [reflexivity | lia | assumption].
           ++ rewrite utf8_decode_3 by lia.
              rewrite IH; [reflexivity | lia | assumption].
Qed.

Lemma utf8_reread s :
  Forall (fun c => 0 <= c <= 0xFFFF) s ->
  utf8_decode (utf8_encode s) = to_well_formed s.
Proof. apply (utf8_reread_le (length s)). lia. Qed.

Lemma string_body_app s rest :
  Forall plain_unit s -> string_body (s ++ dquote :: rest) = Some (s, rest).
Proof.
  induction 1 as [|c s [H1 [H2 H3]] Hs IH]; cbn [app string_body].
  - reflexivity.
  - unfold dquote in *.
    destruct (Z.eqb_spec c 34); [lia|].
    destruct (Z.eqb_spec c 92); [lia|].
    destruct (Z.ltb_spec c 32); [lia|].
    cbn [orb]. rewrite IH. reflexivity.
Qed.

Lemma hex_digit_plain n : 0 <= n < 16 -> plain_unit (hex_digit n).
Proof.
  intros Hn. unfold plain_unit, hex_digit.
  destruct (Z.ltb_spec n 10); lia.
Qed.

Lemma hex_encode_plain bs : Forall plain_unit (hex_encode bs).
Proof.
  induction bs as [|b bs IH]; cbn [hex_encode]; [constructor|].
  pose proof (byte_to_Z_range b).
  constructor; [|constructor; [|exact IH]]; apply hex_digit_plain.
  - split; [apply Z.div_pos; lia | apply Z.div_lt_upper_bound; lia].
  - apply Z.mod_pos_bound. lia.
Qed.

Lemma parse_stringify iv data tag :
  Forall plain_unit iv -> Forall plain_unit data -> Forall plain_unit tag ->
  parse_envelope (stringify_envelope iv data tag)
  = Some {| env_iv := iv; env_data := data; env_tag := tag |}.
Proof.
  intros Hi Hd Ht. unfold parse_envelope, stringify_envelope.
  simpl. rewrite (string_body_app iv) by assumption.
  simpl. rewrite (string_body_app data) by assumption.
  simpl. rewrite (string_body_app tag) by assumption.
  reflexivity.
Qed.

Lemma flip_byte_neq j b : (j < 8)%nat -> flip_byte j b <> b.
Proof.
  intros Hj.
  do 8 (destruct j as [|j]; [destruct b; vm_compute; discriminate|]). lia.
Qed.

Lemma flip_bit_length i bs : length (flip_bit i bs) = length bs.
Proof.
  revert i. induction bs as [|b bs IH]; intros i; cbn [flip_bit]; [reflexivity|].
  destruct (i <? 8)%nat; cbn [length]; [reflexivity | rewrite IH; reflexivity].
Qed.

Lemma flip_bit_neq i bs : (i < 8 * length bs)%nat -> flip_bit i bs <> bs.
Proof.
  revert i. induction bs as [|b bs IH]; intros i Hi; cbn [length] in Hi; [lia|].
  cbn [flip_bit]. destruct (Nat.ltb_spec i 8).
  - intros E. injection E as E. exact (flip_byte_neq i b H E).
  - intros E. injection E as E. apply (IH (i - 8)%nat); [lia | exact E].
Qed.

(** ** Running computations *)

Lemma bind_run {A B} (c : M A) (k : A -> M B) w :
  bind c k w
  = match c w with
    | (w', Return a) => k a w'
    | (w', Throw e) => (w', Throw e)
    end.
Proof. reflexivity. Qed.

(** Unfold the binds that are applied to world [w]. *)
Ltac run_bind w :=
  repeat match goal with
         | |- context [bind ?c ?k w] => rewrite (bind_run c k w)
         end.

(** Reduce the matches on completions that [ret] and [throw] decide. *)
Ltac norm := cbv beta match delta [ret throw].

(** ** DNS TXT records *)

Lemma strip_prefix_Some p : forall s rest,
  strip_prefix p s = Some rest -> s = p ++ rest.
Proof.
  induction p as [|a p IH]; intros s rest H; cbn [strip_prefix] in H.
  - injection H as ->. reflexivity.
  - destruct s as [|b s]; [discriminate|].
    destruct (Z.eqb_spec a b) as [->|]; [|discriminate].
    cbn [app]. f_equal. apply IH, H.
Qed.

Lemma take_nonspace_spec s :
  exists rest,
    s = take_nonspace s ++ rest
    /\ Forall (fun c => is_regex_space c = false) (take_nonspace s)
    /\ (rest = [] \/ exists c rest', rest = c :: rest'
                                     /\ is_regex_space c = true).
Proof.
  induction s as [|c s (rest & E & Hrun & Hrest)]; cbn [take_nonspace].
  - exists []. repeat split; [constructor | left; reflexivity].
  - destruct (is_regex_space c) eqn:Hc.
    + exists (c :: s). repeat split; [constructor|].
      right. exists c, s. split; [reflexivity | exact Hc].
    + exists rest. cbn [app]. repeat split.
      * f_equal. exact E.
      * constructor; assumption.
      * exact Hrest.
Qed.

(** What a match of the regular expression says about the text. *)
Definition endpoint_token (txt url : jsstring) : Prop :=
  exists pre run rest,
    txt = pre ++ js "endpoint=" ++ url ++ rest
    /\ url = js "https://" ++ run
    /\ run <> []
    /\ Forall (fun c => is_regex_space c = false) run
    /\ (rest = [] \/ exists c rest', rest = c :: rest'
                                     /\ is_regex_space c = true).

Lemma match_endpoint_here_token s url :
  match_endpoint_here s = Some url -> endpoint_token s url.
Proof.
  unfold match_endpoint_here. intros H.
  destruct (strip_prefix (js "endpoint=https://") s) as [tl|] eqn:E;
    [|discriminate].
  apply strip_prefix_Some in E.
  destruct (take_nonspace_spec tl) as (rest & Etl & Hrun & Hrest).
  destruct (take_nonspace tl) as [|c run] eqn:Erun; [discriminate|].
  injection H as <-.
  exists [], (c :: run), rest. repeat split; try assumption; [|discriminate].
  rewrite E, Etl. reflexivity.
Qed.

Lemma match_endpoint_token s : forall url,
  match_endpoint s = Some url -> endpoint_token s url.
Proof.
  induction s as [|c s IH]; intros url H; cbn [match_endpoint] in H.
  - destruct (match_endpoint_here []) eqn:E; [|discriminate].
    injection H as ->. apply match_endpoint_here_token, E.
  - destruct (match_endpoint_here (c :: s)) eqn:E.
    + injection H as ->. apply match_endpoint_here_token, E.
    + destruct (IH url H) as (pre & run & rest & Es & Hrest).
      exists (c :: pre), run, rest. split; [|exact Hrest].
      rewrite Es. reflexivity.
Qed.

Lemma scan_records_Some records : forall url,
  scan_records records = Some url ->
  exists record,
    record ∈ records
    /\ startsWith (js "v=scp1") (concat record) = true
    /\ match_endpoint (concat record) = Some url.
Proof.
  induction records as [|r rs IH]; intros url H; cbn [scan_records] in H;
    [discriminate|].
  cbv zeta in H.
  destruct (startsWith (js "v=scp1") (concat r)) eqn:Hp.
  - destruct (match_endpoint (concat r)) as [m|] eqn:Hm.
    + injection H as ->. exists r. repeat split; [left | exact Hp | exact Hm].
    + destruct (IH url H) as (r' & Hin & Hr'). exists r'.
      split; [right; exact Hin | exact Hr'].
  - destruct (IH url H) as (r' & Hin & Hr'). exists r'.
    split; [right; exact Hin | exact Hr'].
Qed.

Lemma scan_records_no_prefix records :
  (forall record, record ∈ records ->
                  startsWith (js "v=scp1") (concat record) = false) ->
  scan_records records = None.
Proof.
  induction records as [|r rs IH]; intros H; cbn [scan_records];
    [reflexivity|].
  cbv zeta. rewrite (H r) by left. apply IH.
  intros r' Hin. apply H. right. exact Hin.
Qed.

(** C9. DNS TXT discovery accepts a record only if its concatenated
    text starts with [v=scp1] and holds a token [endpoint=<https-url>]
    that ends at white space: the value
    ["v=scp1 endpoint=https://x.example/v1"] resolves to
    [https://x.example/v1], and records without the [v=scp1] prefix are
    ignored whatever else they hold. *)
Theorem dns_txt_record_acceptance :
  (forall w d,
      resolver (outside w) (trace w) (DNS_QUERY_PREFIX ++ d)
      = DnsRecords [[js "v=scp1 endpoint=https://x.example/v1"]] ->
      tryDNSDiscovery d w
      = (log_event (EvResolveTxt (DNS_QUERY_PREFIX ++ d)) w,
         Return (Some (js "https://x.example/v1"))))
  /\ (forall w d records,
         resolver (outside w) (trace w) (DNS_QUERY_PREFIX ++ d)
         = DnsRecords records ->
         (forall record, record ∈ records ->
                         startsWith (js "v=scp1") (concat record) = false) ->
         tryDNSDiscovery d w
         = (log_event (EvResolveTxt (DNS_QUERY_PREFIX ++ d)) w, Return None))
  /\ (forall w d url,
         snd (tryDNSDiscovery d w) = Return (Some url) ->
         exists records record,
           resolver (outside w) (trace w) (DNS_QUERY_PREFIX ++ d)
           = DnsRecords records
           /\ record ∈ records
           /\ startsWith (js "v=scp1") (concat record) = true
           /\ endpoint_token (concat record) url).
Proof.
  split; [|split].
  - intros w d H. unfold tryDNSDiscovery, try_catch, bind, resolveTxt.
    rewrite H. reflexivity.
  - intros w d records H Hno.
    unfold tryDNSDiscovery, try_catch, bind, resolveTxt.
    rewrite H. unfold ret. rewrite (scan_records_no_prefix records Hno).
    reflexivity.
  - intros w d url H.
    unfold tryDNSDiscovery, try_catch, bind, resolveTxt in H.
    destruct (resolver (outside w) (trace w) (DNS_QUERY_PREFIX ++ d))
      as [e|records] eqn:E.
    + cbv zeta in H.
      destruct (bool_decide (code e = Some (js "ENOTFOUND"))
                || bool_decide (code e = Some (js "ENODATA")));
        cbn in H; discriminate.
    + cbn in H. injection H as H.
      destruct (scan_records_Some records url H) as (record & Hin & Hp & Hm).
      exists records, record. repeat split; try assumption.
      apply match_endpoint_token, Hm.
Qed.

(** ** The discovery chain *)

Lemma truthy_string_idem v :
  truthy_string (truthy_string v) = truthy_string v.
Proof.
  destruct v as [s|]; [|reflexivity]. cbn.
  destruct s; reflexivity.
Qed.

Lemma tryWellKnown_truthy d w w' e :
  tryWellKnown d w = (w', Return (Some e)) -> truthy_string (Some e) = Some e.
Proof.
  unfold tryWellKnown, try_catch, bind, fetch, json_as, ret, throw.
  destruct (server (outside w) (trace w) (well_known_request d)) as [err|r];
    [intros H; injection H; discriminate|].
  destruct (ok r); [|intros H; injection H; discriminate].
  destruct (as_any_endpoint (payload r)) as [data|];
    [|intros H; injection H; discriminate].
  intros H. injection H as _ H. rewrite <- H. apply truthy_string_idem.
Qed.



Lemma fallback_chain d w :
  bind (tryFallbackDiscovery d) (remember_endpoint d) w
  = first_hit [source_well_known d; source_header d] w.
Proof.
  cbn [first_hit]. unfold tryFallbackDiscovery, source_well_known, source_header.
  run_bind w.
  destruct (tryWellKnown d w) as [w1 [[e|]|err]] eqn:E; try reflexivity.
  - norm. unfold remember_endpoint.
    rewrite (tryWellKnown_truthy _ _ _ _ E).
    unfold bind, Date_now, cacheEndpoint. reflexivity.
  - cbn [remember_endpoint truthy_string]. norm.
    run_bind w1.
    destruct (tryHeader d w1) as [w2 [found|err]]; [|reflexivity].
    destruct (remember_endpoint d found w2) as [w3 [[e|]|err]]; reflexivity.
Qed.

Lemma discoverSCPEndpoint_chain d w :
  discoverSCPEndpoint d w = first_hit (discovery_chain d) w.
Proof.
  unfold discoverSCPEndpoint, discovery_chain.
  change (first_hit (?a :: ?b :: ?c :: ?e :: ?rest))
    with (await f1 <- a ;;
          match f1 with
          | Some x => ret (Some x)
          | None =>
              await f2 <- b ;;
              match f2 with
              | Some x => ret (Some x)
              | None =>
                  await f3 <- c ;;
                  match f3 with
                  | Some x => ret (Some x)
                  | None =>
                      await f4 <- e ;;
                      match f4 with
                      | Some x => ret (Some x)
                      | None => first_hit rest
                      end
                  end
              end
          end).
  unfold source_override. run_bind w.
  destruct (checkTestEndpoint d w) as [w1 [[e|]|err]]; try reflexivity.
  unfold source_demo. run_bind w1.
  destruct (loadConfig w1) as [w2 [config|err]]; [|reflexivity].
  destruct (default false (demo_mode config)); [reflexivity|].
  norm.
  unfold source_cache. run_bind w2.
  destruct (getCachedEndpoint d w2) as [w3 [[c|]|err]]; try reflexivity.
  norm. cbn [fmap option_fmap option_map]. norm.
  unfold source_dns. run_bind w3.
  destruct (tryDNSDiscovery d w3) as [w4 [found|err]]; [|reflexivity].
  unfold remember_endpoint at 1.
  destruct (truthy_string found) as [e|] eqn:Ef.
  - unfold bind, Date_now, cacheEndpoint. reflexivity.
  - norm. rewrite <- fallback_chain.
    unfold bind, remember_endpoint.
    destruct (tryFallbackDiscovery d w4) as [w5 [fb|err]]; [|reflexivity].
    norm. reflexivity.
Qed.










(** ** The default configuration *)

Lemma no_override_miss d w :
  truthy_string (SCP_TEST_ENDPOINT w) = None ->
  checkTestEndpoint d w = (w, Return None).
Proof.
  intros H. unfold checkTestEndpoint, bind, getTestEndpointOverride.
  unfold truthy_string in H.
  destruct (SCP_TEST_ENDPOINT w) as [e|]; [|reflexivity].
  destruct (truthy e); [discriminate | reflexivity].
Qed.

(** C10. Without a configuration file and without the
    [SCP_TEST_ENDPOINT] override, [demo_mode] is on: discovery returns
    the demo endpoint for every domain and consults neither the cache,
    nor DNS, nor the two HTTPS probes. The same holds for every
    configuration file that does not set [demo_mode] to [false]; only
    such a file makes the rest of the chain reachable. *)
Theorem default_configuration_is_demo d w :
  truthy_string (SCP_TEST_ENDPOINT w) = None ->
  (config_file w = None ->
   discoverSCPEndpoint d w
   = (set_config_file (Some (Parsed (config_object DEFAULT_CONFIG))) w,
      Return (Some (js "https://demo.shoppercontextprotocol.io/v1"))))
  /\ ((forall c, config_file w = Some (Parsed c) ->
                 cfg_demo_mode c <> Some false) ->
      exists w' config,
        loadConfig w = (w', Return config)
        /\ discoverSCPEndpoint d w
           = (w', Return (Some (or_default (demo_endpoint config)
                    (js "https://demo.shoppercontextprotocol.io/v1"))))
        /\ trace w' = trace w
        /\ endpoint_cache w' = endpoint_cache w).
Proof.
  intros Hov. split.
  - intros Hfile. unfold discoverSCPEndpoint. rewrite bind_run.
    rewrite (no_override_miss d w Hov). rewrite bind_run.
    unfold loadConfig. rewrite Hfile. reflexivity.
  - intros Hdemo.
    assert (exists w' config,
               loadConfig w = (w', Return config)
               /\ default false (demo_mode config) = true
               /\ trace w' = trace w
               /\ endpoint_cache w' = endpoint_cache w)
      as (w' & config & Hload & Hon & Htr & Hcache).
    { unfold loadConfig. destruct (config_file w) as [[|c]|] eqn:Hfile.
      - eexists _, _. repeat split.
      - eexists _, _. split; [reflexivity|]. repeat split.
        cbn. specialize (Hdemo c eq_refl).
        destruct (cfg_demo_mode c) as [[|]|]; [reflexivity | congruence
                                               | reflexivity].
      - eexists _, _. repeat split. }
    exists w', config. repeat split; try assumption.
    unfold discoverSCPEndpoint. rewrite bind_run.
    rewrite (no_override_miss d w Hov). rewrite bind_run.
    rewrite Hload, Hon. reflexivity.
Qed.

(** ** The poll loop *)

Lemma pending_is_still_pending p :
  poll_status p = js "pending" -> still_pending p.
Proof.
  intros H. unfold still_pending. rewrite H.
  repeat split; [intros [E _]|intros E|intros E]; vm_compute in E;
    discriminate.
Qed.

Lemma poll_rounds_S n req ms :
  poll_rounds (S n) req ms = [EvFetch req; EvTimeout ms] ++ poll_rounds n req ms.
Proof. reflexivity. Qed.

Lemma tells_as_poll doc p : tells doc p -> as_poll doc = Some p.
Proof.
  intros [q|other Hjson Hother]; [reflexivity|].
  destruct other; try reflexivity; [congruence|].
  exfalso. eapply Hother. reflexivity.
Qed.

Lemma without_status_pending : still_pending without_status.
Proof.
  unfold still_pending, without_status. cbn [poll_status poll_code].
  repeat split; [intros [E _]|intros E|intros E]; vm_compute in E;
    discriminate.
Qed.

Lemma poll_step_pending n e rid i w r p :
  server (outside w) (trace w) (poll_request e rid) = Resolved r ->
  ok r = true -> as_poll (payload r) = Some p -> still_pending p ->
  poll_loop (S n) e rid i w
  = poll_loop n e rid i
      (log_event (EvTimeout (i * 1000))
         (log_event (EvFetch (poll_request e rid)) w)).
Proof.
  intros Hs Hok Hp (Hauth & Hden & Hexp).
  cbn [poll_loop]. rewrite bind_run. unfold fetch. rewrite Hs, Hok.
  cbn [negb]. rewrite bind_run. unfold json_as. rewrite Hp.
  norm.
  destruct (bool_decide (poll_status p = js "authorized")) eqn:Ea.
  - apply bool_decide_eq_true in Ea.
    destruct (truthy (default [] (poll_code p))) eqn:Et;
      [exfalso; apply Hauth; split; [assumption | reflexivity]|].
    cbn [andb]. rewrite !bool_decide_eq_false_2 by assumption.
    reflexivity.
  - cbn [andb]. rewrite !bool_decide_eq_false_2 by assumption.
    reflexivity.
Qed.

Lemma poll_step_authorized n e rid i w r p K :
  server (outside w) (trace w) (poll_request e rid) = Resolved r ->
  ok r = true -> as_poll (payload r) = Some p ->
  poll_status p = js "authorized" -> poll_code p = Some K -> K <> [] ->
  poll_loop (S n) e rid i w
  = (log_event (EvFetch (poll_request e rid)) w, Return K).
Proof.
  intros Hs Hok Hp Ha Hc HK.
  cbn [poll_loop]. rewrite bind_run. unfold fetch. rewrite Hs, Hok.
  cbn [negb]. rewrite bind_run. unfold json_as. rewrite Hp.
  norm. rewrite Ha, Hc. cbn [default].
  rewrite bool_decide_eq_true_2 by reflexivity.
  destruct K; [congruence | reflexivity].
Qed.

Lemma poll_all_pending n e rid i : forall w,
  (forall k, (k < n)%nat ->
     exists p, answers w (poll_rounds k (poll_request e rid) (i * 1000))
                 (poll_request e rid) p
               /\ still_pending p) ->
  exists w',
    poll_loop n e rid i w
    = (w', Throw (Error (js
         "Authorization timeout: maximum poll attempts reached")))
    /\ trace w' = trace w ++ poll_rounds n (poll_request e rid) (i * 1000)
    /\ outside w' = outside w.
Proof.
  induction n as [|n IH]; intros w H.
  - exists w. repeat split. cbn. rewrite app_nil_r. reflexivity.
  - destruct (H 0%nat ltac:(lia)) as (p & (r & Hs & Hok & Hp) & Hpend).
    cbn [poll_rounds replicate concat] in Hs. rewrite app_nil_r in Hs.
    rewrite (poll_step_pending n e rid i w r p Hs Hok (tells_as_poll _ _ Hp)
               Hpend).
    set (w1 := log_event _ (log_event _ w)).
    destruct (IH w1) as (w' & Hrun & Htr & Hout).
    + intros k Hk. destruct (H (S k) ltac:(lia)) as (q & (r' & Hs' & Hr') & Hq).
      exists q. split; [|exact Hq]. exists r'. split; [|exact Hr'].
      rewrite <- Hs'. unfold w1. cbn [trace log_event outside].
      rewrite poll_rounds_S. rewrite <- !app_assoc. reflexivity.
    + exists w'. split; [exact Hrun|]. split; [|rewrite Hout; reflexivity].
      rewrite Htr. unfold w1. cbn [trace log_event].
      rewrite poll_rounds_S. rewrite <- !app_assoc. reflexivity.
Qed.

(** C4. With the answers pending, pending, authorized(code=K) the loop
    waits exactly two poll intervals and returns K on the third poll;
    a 2xx answer with a JSON body that is neither authorized with a
    code, nor denied, nor expired (a poll document with any other
    status, or a document of another shape, which has no status) makes
    the loop wait and poll again; and when every answer up to the
    attempt cap (150 by default) is of that kind, the loop ends in the
    timeout failure. *)
Theorem poll_loop_behaviour e rid dom w :
  let req :=
    {| req_url := e ++ js "/authorize/poll?auth_request_id=" ++ rid
                    ++ js "&client_id=" ++ js "scp-mcp-server";
       req_method := GET;
       req_headers := [(js "Accept", js "application/json")];
       req_body := NoBody;
       req_timeout := 10000 |} in
  (forall cap i p1 p2 p3 K,
      let ms := default 2 i * 1000 in
      answers w [] req p1 -> poll_status p1 = js "pending" ->
      answers w (poll_rounds 1 req ms) req p2 ->
      poll_status p2 = js "pending" ->
      answers w (poll_rounds 2 req ms) req p3 ->
      poll_status p3 = js "authorized" -> poll_code p3 = Some K ->
      K <> [] ->
      3 <= default 150 cap ->
      exists w',
        pollAuthorization e rid cap i dom w = (w', Return K)
        /\ trace w'
           = trace w ++ [EvFetch req; EvTimeout ms; EvFetch req;
                         EvTimeout ms; EvFetch req])
  /\ (forall n i r,
         server (outside w) (trace w) req = Resolved r ->
         ok r = true -> payload r <> BadJson ->
         (forall p, payload r = PollDoc p -> still_pending p) ->
         poll_loop (S n) e rid i w
         = poll_loop n e rid i
             (log_event (EvTimeout (i * 1000)) (log_event (EvFetch req) w)))
  /\ (forall cap i,
         let attempts := Z.to_nat (default 150 cap) in
         let ms := default 2 i * 1000 in
         (forall k, (k < attempts)%nat ->
            exists p, answers w (poll_rounds k req ms) req p
                      /\ still_pending p) ->
         exists w',
           pollAuthorization e rid cap i dom w
           = (w', Throw (Error (js
                "Authorization timeout: maximum poll attempts reached")))
           /\ trace w' = trace w ++ poll_rounds attempts req ms).
Proof.
  intros req.
  assert (req = poll_request e rid) as Hreq by reflexivity.
  clearbody req. subst req.
  split; [|split].
  - intros cap i p1 p2 p3 K ms (r1 & Hs1 & Hok1 & Hp1) Hst1
      (r2 & Hs2 & Hok2 & Hp2) Hst2 (r3 & Hs3 & Hok3 & Hp3) Hst3 Hcode HK Hcap.
    set (req := poll_request e rid) in *.
    rewrite app_nil_r in Hs1.
    unfold pollAuthorization.
    destruct (Z.to_nat (default 150 cap)) as [|[|[|n]]] eqn:En; try lia.
    set (i' := default 2 i) in *.
    rewrite (poll_step_pending _ e rid i' w r1 p1 Hs1 Hok1
               (tells_as_poll _ _ Hp1) (pending_is_still_pending p1 Hst1)).
    set (w1 := log_event _ (log_event _ w)).
    assert (trace w1 = trace w ++ poll_rounds 1 req ms) as Ht1
      by (unfold w1; cbn [trace log_event]; rewrite <- app_assoc; reflexivity).
    rewrite <- Ht1 in Hs2.
    rewrite (poll_step_pending _ e rid i' w1 r2 p2 Hs2 Hok2
               (tells_as_poll _ _ Hp2) (pending_is_still_pending p2 Hst2)).
    set (w2 := log_event _ (log_event _ w1)).
    assert (trace w2 = trace w ++ poll_rounds 2 req ms) as Ht2
      by (unfold w2; cbn [trace log_event]; rewrite Ht1;
          rewrite <- !app_assoc; reflexivity).
    rewrite <- Ht2 in Hs3.
    rewrite (poll_step_authorized _ e rid i' w2 r3 p3 K Hs3 Hok3
               (tells_as_poll _ _ Hp3) Hst3 Hcode HK).
    eexists. split; [reflexivity|].
    cbn [trace log_event]. rewrite Ht2. rewrite <- app_assoc. reflexivity.
  - intros n i r Hs Hok Hjson Hpend.
    destruct (payload r) as [| | | |p| |] eqn:Hp; try congruence;
      try (apply (poll_step_pending n e rid i w r without_status Hs Hok);
           [rewrite Hp; reflexivity | apply without_status_pending]).
    apply (poll_step_pending n e rid i w r p Hs Hok).
    + rewrite Hp. reflexivity.
    + apply Hpend. reflexivity.
  - intros cap i attempts ms H. unfold pollAuthorization.
    destruct (poll_all_pending attempts e rid (default 2 i) w H)
      as (w' & Hrun & Htr & _).
    exists w'. split; assumption.
Qed.

(** ** The tool handlers *)

Lemma elem_of_js_set x l : x ∈ js_set l <-> x ∈ l.
Proof.
  unfold js_set. rewrite elem_of_reverse, elem_of_remove_dups.
  apply elem_of_reverse.
Qed.

Lemma NoDup_js_set l : NoDup (js_set l).
Proof.
  unfold js_set. rewrite reverse_Permutation. apply NoDup_remove_dups.
Qed.

Lemma scopes_match_same_set existing requested :
  (forall s, s ∈ requested <-> s ∈ existing) ->
  scopes_match existing requested = true.
Proof.
  intros Hsame. unfold scopes_match. cbv zeta.
  apply andb_true_iff. split.
  - apply bool_decide_eq_true. apply Permutation_length.
    apply NoDup_Permutation; [apply NoDup_js_set | apply NoDup_js_set|].
    intros s. rewrite !elem_of_js_set. symmetry. apply Hsame.
  - apply forallb_forall. intros s Hin. apply list_elem_of_In in Hin.
    unfold set_has. apply bool_decide_eq_true.
    rewrite elem_of_js_set in *. apply Hsame, Hin.
Qed.

Lemma getAuthorization_run d w :
  getAuthorization d w
  = (w, Return (with_merchant_domain d <$> merchant_authorizations w !! d)).
Proof. reflexivity. Qed.

(** C5 (amended). For a domain with a stored record, [authorize] with
    the stored email and a scope list that equals the stored scopes as
    a set returns the already-authorized text without any call to the
    outside and without any change of state, provided the email passes
    the guard on example addresses; an email that the guard rejects
    gets the invalid-email text instead, likewise without any call or
    change. *)
Theorem reauthorize_same_identity domain email requested w e :
  merchant_authorizations w !! domain = Some e ->
  customer_email e = email ->
  (forall s, s ∈ requested <-> s ∈ scopes e) ->
  (is_example_email email = false ->
   handleAuthorize domain email requested w
   = (w, Return {| text := already_authorized_text domain e |}))
  /\ (is_example_email email = true ->
      handleAuthorize domain email requested w
      = (w, Return {| text := invalid_email_text domain email |})).
Proof.
  intros Hrow Hemail Hscopes. split; intros Hguard;
    unfold handleAuthorize; rewrite Hguard; [|reflexivity].
  rewrite bind_run, getAuthorization_run, Hrow.
  cbn [fmap option_fmap option_map with_merchant_domain scopes customer_email].
  rewrite (scopes_match_same_set _ _ Hscopes).
  rewrite bool_decide_eq_true_2 by assumption.
  reflexivity.
Qed.

(** C6 (amended). For a domain with a stored record, [authorize] with
    an email other than the stored one that passes the guard on
    example addresses runs no discovery, no flow and no upsert: it
    returns the text that tells the caller to revoke first, and the
    state is unchanged. *)
Theorem reauthorize_other_identity domain email requested w e :
  merchant_authorizations w !! domain = Some e ->
  customer_email e <> email ->
  is_example_email email = false ->
  handleAuthorize domain email requested w
  = (w, Return {| text := revoke_first_text domain email e |}).
Proof.
  intros Hrow Hemail Hguard. unfold handleAuthorize. rewrite Hguard.
  rewrite bind_run, getAuthorization_run, Hrow.
  cbn [fmap option_fmap option_map with_merchant_domain scopes customer_email].
  rewrite bool_decide_eq_false_2 by assumption.
  rewrite andb_false_r. reflexivity.
Qed.

(** C7. [revoke] on a domain without a record throws; on a domain with
    a record it ends normally with the record deleted, whatever
    happens while the access token is obtained or the remote call is
    made. *)
Theorem revoke_deletes_local_record domain w :
  (merchant_authorizations w !! domain = None ->
   handleRevokeAuthorization domain w
   = (w, Throw (Error (js "No authorization found for " ++ domain))))
  /\ (forall auth,
         merchant_authorizations w !! domain = Some auth ->
         exists w',
           handleRevokeAuthorization domain w
           = (w', Return {| text := [0x2713]
                              ++ js " Revoked authorization for "
                              ++ domain |})
           /\ merchant_authorizations w' !! domain = None).
Proof.
  split.
  - intros Hrow. unfold handleRevokeAuthorization.
    rewrite bind_run, getAuthorization_run, Hrow. reflexivity.
  - intros auth Hrow. unfold handleRevokeAuthorization.
    rewrite bind_run, getAuthorization_run, Hrow.
    cbn [fmap option_fmap option_map]. rewrite bind_run.
    unfold try_catch at 1.
    match goal with
    | |- context [let (_, _) := ?c w in _] =>
        destruct (c w) as [w1 [[]|err]]
    end; norm; rewrite bind_run; unfold deleteAuthorization;
      (eexists; split; [reflexivity|]);
      cbn [merchant_authorizations set_merchant_authorizations];
      apply lookup_delete_eq.
Qed.

(** ** Encryption at rest *)

(** The contract of AES-256-GCM for a 32-byte key and a 16-byte nonce:
    decryption inverts encryption; a tag of the same length that
    differs from the computed one is refused; a ciphertext with one bit
    flipped is refused under the original tag. *)
Hypothesis gcm_decrypt_encrypt : forall key iv plain,
  length key = KEY_LENGTH -> length iv = IV_LENGTH ->
  gcm_decrypt key iv (fst (gcm_encrypt key iv plain))
              (snd (gcm_encrypt key iv plain)) = Some plain.

Hypothesis gcm_tag_verified : forall key iv plain tag,
  length key = KEY_LENGTH -> length iv = IV_LENGTH ->
  length tag = length (snd (gcm_encrypt key iv plain)) ->
  tag <> snd (gcm_encrypt key iv plain) ->
  gcm_decrypt key iv (fst (gcm_encrypt key iv plain)) tag = None.

Hypothesis gcm_data_verified : forall key iv plain i,
  length key = KEY_LENGTH -> length iv = IV_LENGTH ->
  (i < 8 * length (fst (gcm_encrypt key iv plain)))%nat ->
  gcm_decrypt key iv (flip_bit i (fst (gcm_encrypt key iv plain)))
              (snd (gcm_encrypt key iv plain)) = None.

Lemma fresh_iv_length w : length (fresh_iv w) = IV_LENGTH.
Proof. unfold fresh_iv. apply length_resize. Qed.

Lemma check_key_ok key w :
  length key = KEY_LENGTH -> check_key key w = (w, Return tt).
Proof.
  intros H. unfold check_key. rewrite bool_decide_eq_true_2 by assumption.
  reflexivity.
Qed.

Lemma encryptToken_run token w key :
  masterKeyCache w = Some key -> length key = KEY_LENGTH ->
  encryptToken token w
  = (log_event (EvRandomBytes IV_LENGTH) w,
     Return (envelope_of key (fresh_iv w) token)).
Proof.
  intros Hk Hlen. unfold encryptToken. rewrite Hk.
  rewrite bind_run. unfold randomBytes. rewrite bind_run.
  rewrite check_key_ok by assumption. reflexivity.
Qed.

Lemma decryptToken_world encrypted w : fst (decryptToken encrypted w) = w.
Proof.
  unfold decryptToken.
  destruct (masterKeyCache w) as [key|]; [|reflexivity].
  destruct (parse_envelope encrypted) as [parsed|]; [|reflexivity].
  rewrite bind_run. unfold check_key.
  destruct (bool_decide (length key = KEY_LENGTH)); [|reflexivity].
  norm. destruct (gcm_decrypt _ _ _ _); reflexivity.
Qed.


(** Decryption of an envelope text whose three fields are the hex of
    [iv], [data] and [tag]. *)
Lemma decryptToken_run iv data tag w key :
  masterKeyCache w = Some key -> length key = KEY_LENGTH ->
  decryptToken (stringify_envelope (hex_encode iv) (hex_encode data)
                                   (hex_encode tag)) w
  = (w, match gcm_decrypt key iv data tag with
        | Some decrypted => Return (utf8_decode decrypted)
        | None => Throw (Error (js
            "Unsupported state or unable to authenticate data"))
        end).
Proof.
  intros Hk Hlen. unfold decryptToken. rewrite Hk.
  rewrite parse_stringify by apply hex_encode_plain.
  cbn [env_iv env_data env_tag]. rewrite !hex_decode_encode.
  rewrite bind_run, check_key_ok by assumption.
  destruct (gcm_decrypt key iv data tag); reflexivity.
Qed.

Lemma decryptToken_envelope token iv w key :
  masterKeyCache w = Some key -> length key = KEY_LENGTH ->
  length iv = IV_LENGTH ->
  decryptToken (envelope_of key iv token) w
  = (w, Return (utf8_decode (utf8_encode token))).
Proof.
  intros Hk Hlen Hiv. unfold envelope_of, envelope_with. cbv zeta.
  rewrite (decryptToken_run _ _ _ w key Hk Hlen).
  rewrite gcm_decrypt_encrypt by assumption. reflexivity.
Qed.

(** [initEncryption] on a database without a key row draws a key of 32
    bytes, stores its hex, and caches it. *)
Lemma initEncryption_fresh w :
  masterKeyCache w = None -> encryption_keys w = None ->
  exists w' key,
    initEncryption w = (w', Return tt)
    /\ masterKeyCache w' = Some key
    /\ length key = KEY_LENGTH
    /\ (key_hex <$> encryption_keys w') = Some (hex_encode key).
Proof.
  intros Hc Hrow. unfold initEncryption, getMasterKey.
  rewrite bind_run, Hc. rewrite bind_run. unfold getEncryptionKey.
  rewrite Hrow. cbv beta match.
  unfold bind, randomBytes, storeEncryptionKey, Date_now, set_key_cache, ret.
  cbn. eexists _, _. split; [reflexivity|]. split; [reflexivity|].
  split; [apply length_resize | reflexivity].
Qed.

(** A later process that finds the stored row caches the same key. *)
Lemma initEncryption_reload w row :
  masterKeyCache w = None -> encryption_keys w = Some row ->
  initEncryption w
  = (set_masterKeyCache (Some (hex_decode (key_hex row))) w, Return tt).
Proof.
  intros Hc Hrow. unfold initEncryption, getMasterKey.
  rewrite bind_run, Hc. rewrite bind_run. unfold getEncryptionKey.
  rewrite Hrow. reflexivity.
Qed.

(** Decryption reads the three fields of the envelope text through
    hex decoding. *)
Lemma decryptToken_text iv_text data_text tag_text w key :
  masterKeyCache w = Some key -> length key = KEY_LENGTH ->
  Forall plain_unit iv_text -> Forall plain_unit data_text ->
  Forall plain_unit tag_text ->
  decryptToken (stringify_envelope iv_text data_text tag_text) w
  = (w, match gcm_decrypt key (hex_decode iv_text) (hex_decode data_text)
                (hex_decode tag_text) with
        | Some decrypted => Return (utf8_decode decrypted)
        | None => Throw (Error (js
            "Unsupported state or unable to authenticate data"))
        end).
Proof.
  intros Hk Hlen Hi Hd Ht. unfold decryptToken. rewrite Hk.
  rewrite parse_stringify by assumption.
  cbn [env_iv env_data env_tag].
  rewrite bind_run, check_key_ok by assumption.
  destruct (gcm_decrypt _ _ _ _); reflexivity.
Qed.

(** C3 (amended). With a cached master key of 32 bytes, which is what
    [initEncryption] draws ([encryptToken] throws with a key of any
    other length), [encryptToken] writes an envelope that
    [decryptToken] opens to the token with every unpaired surrogate
    replaced by U+FFFD, which is the token itself whenever it is
    well-formed UTF-16. An envelope in which one bit of the ciphertext
    bytes is flipped, or whose tag is any other tag of the same length
    (one with a flipped bit included), makes [decryptToken] throw. The
    envelope holds the bytes as hex text and is read through hex
    decoding: a text whose three fields decode to the same bytes opens
    to the same token. *)
Theorem encrypt_decrypt_roundtrip token w key :
  masterKeyCache w = Some key ->
  let iv := fresh_iv w in
  let w1 := log_event (EvRandomBytes IV_LENGTH) w in
  let sealed := gcm_encrypt key iv (utf8_encode token) in
  (length key <> KEY_LENGTH ->
   encryptToken token w = (w1, Throw (Error (js "Invalid key length"))))
  /\ (length key = KEY_LENGTH ->
      encryptToken token w = (w1, Return (envelope_of key iv token))
      /\ decryptToken (envelope_of key iv token) w1
         = (w1, Return (utf8_decode (utf8_encode token)))
      /\ (Forall (fun c => 0 <= c <= 0xFFFF) token ->
          decryptToken (envelope_of key iv token) w1
          = (w1, Return (to_well_formed token)))
      /\ (well_formed_utf16 token = true ->
          decryptToken (envelope_of key iv token) w1 = (w1, Return token))
      /\ (forall i, (i < 8 * length (fst sealed))%nat ->
            exists e,
              decryptToken (envelope_with (flip_bit i) (fun tag => tag)
                                          key iv token) w1
              = (w1, Throw e))
      /\ (forall i, (i < 8 * length (snd sealed))%nat ->
            exists e,
              decryptToken (envelope_with (fun data => data) (flip_bit i)
                                          key iv token) w1
              = (w1, Throw e))
      /\ (forall tag,
            length tag = length (snd sealed) -> tag <> snd sealed ->
            exists e,
              decryptToken (envelope_with (fun data => data) (fun _ => tag)
                                          key iv token) w1
              = (w1, Throw e))
      /\ (forall iv_text data_text tag_text,
            Forall plain_unit iv_text -> Forall plain_unit data_text ->
            Forall plain_unit tag_text ->
            hex_decode iv_text = iv ->
            hex_decode data_text = fst sealed ->
            hex_decode tag_text = snd sealed ->
            decryptToken (stringify_envelope iv_text data_text tag_text) w1
            = (w1, Return (utf8_decode (utf8_encode token))))).
Proof.
  intros Hk iv w1 sealed.
  assert (masterKeyCache w1 = Some key) as Hk1 by exact Hk.
  pose proof (fresh_iv_length w) as Hiv. fold iv in Hiv.
  split.
  { intros Hlen. unfold encryptToken. rewrite Hk. rewrite bind_run.
    unfold randomBytes. rewrite bind_run. unfold check_key.
    rewrite bool_decide_eq_false_2 by exact Hlen. reflexivity. }
  intros Hlen.
  split; [apply encryptToken_run; assumption|].
  split; [apply decryptToken_envelope; assumption|].
  split; [|split; [|split; [|split; [|split]]]].
  - intros Hunits. rewrite decryptToken_envelope by assumption.
    rewrite utf8_reread by assumption. reflexivity.
  - intros Hwf. rewrite decryptToken_envelope by assumption.
    rewrite utf8_roundtrip by assumption. reflexivity.
  - intros i Hi. unfold envelope_with. cbv zeta.
    rewrite (decryptToken_run _ _ _ w1 key Hk1 Hlen).
    rewrite gcm_data_verified by assumption. eexists. reflexivity.
  - intros i Hi. unfold envelope_with. cbv zeta.
    rewrite (decryptToken_run _ _ _ w1 key Hk1 Hlen).
    rewrite gcm_tag_verified; try assumption.
    + eexists. reflexivity.
    + apply flip_bit_length.
    + apply flip_bit_neq. exact Hi.
  - intros tag Htag Hne. unfold envelope_with. cbv zeta.
    rewrite (decryptToken_run _ _ _ w1 key Hk1 Hlen).
    rewrite gcm_tag_verified; try assumption. eexists. reflexivity.
  - intros iv_text data_text tag_text Hi Hd Ht Eiv Edata Etag.
    rewrite (decryptToken_text _ _ _ w1 key Hk1 Hlen Hi Hd Ht).
    rewrite Eiv, Edata, Etag. unfold sealed.
    rewrite gcm_decrypt_encrypt by assumption. reflexivity.
Qed.

(** Under every cipher that meets the contract, a token that is one
    high surrogate comes back as U+FFFD. *)
Lemma lone_surrogate_is_replaced w key :
  masterKeyCache w = Some key -> length key = KEY_LENGTH ->
  decryptToken (envelope_of key (fresh_iv w) [0xD800])
               (log_event (EvRandomBytes IV_LENGTH) w)
  = (log_event (EvRandomBytes IV_LENGTH) w, Return [0xFFFD]).
Proof.
  intros Hk Hlen.
  apply (decryptToken_envelope [0xD800] (fresh_iv w)); try assumption.
  apply fresh_iv_length.
Qed.

(** ** The token lifecycle *)

Lemma refreshAccessToken_one_call ep rt w :
  fst (refreshAccessToken ep rt w)
  = log_event (EvFetch (refresh_request ep rt)) w.
Proof.
  unfold refreshAccessToken. rewrite bind_run. unfold fetch.
  destruct (server (outside w) (trace w) (refresh_request ep rt)) as [e|r];
    [reflexivity|].
  destruct (ok r); cbn [negb]; [|reflexivity].
  unfold json_as. destruct (as_token (payload r)); reflexivity.
Qed.






(** C8 (amended). When the refresh inside [getValidAccessToken] fails,
    the caller gets a new error whose message is the message of the
    failure prefixed with [Failed to refresh token for <domain>: ];
    exactly one refresh call has been made, no token is returned, and
    the stored records are as they were. *)
Theorem refresh_failure_is_fatal domain w auth refreshToken w1 err :
  merchant_authorizations w !! domain = Some auth ->
  let now := clock (outside w) (trace w) in
  let w0 := log_event EvNow w in
  expires_at auth - now < TOKEN_REFRESH_THRESHOLD ->
  decryptToken (refresh_token_encrypted auth) w0
  = (w0, Return refreshToken) ->
  refreshAccessToken (scp_endpoint auth) refreshToken w0 = (w1, Throw err) ->
  getValidAccessToken domain w
  = (w1, Throw (Error (js "Failed to refresh token for " ++ domain
                       ++ js ": " ++ message err)))
  /\ trace w1
     = trace w ++ [EvNow; EvFetch (refresh_request (scp_endpoint auth)
                                     refreshToken)]
  /\ merchant_authorizations w1 = merchant_authorizations w.
Proof.
  intros Hrow now w0 Hsoon Hrt Hfail.
  pose proof (refreshAccessToken_one_call (scp_endpoint auth) refreshToken w0)
    as Hone.
  rewrite Hfail in Hone. cbn [fst] in Hone.
  split; [|split].
  - unfold getValidAccessToken.
    rewrite bind_run, getAuthorization_run, Hrow.
    cbn [fmap option_fmap option_map]. rewrite bind_run.
    change (Date_now w) with (w0, Return now). cbv beta match.
    cbn [expires_at with_merchant_domain].
    destruct (Z.ltb_spec (expires_at auth - now) TOKEN_REFRESH_THRESHOLD);
      [|lia].
    rewrite bind_run. unfold refreshTokenIfNeeded.
    cbn [refresh_token_encrypted scp_endpoint merchant_domain
           with_merchant_domain].
    rewrite bind_run, Hrt. unfold try_catch. rewrite bind_run, Hfail.
    reflexivity.
  - rewrite Hone. cbn [trace log_event w0]. rewrite <- app_assoc.
    reflexivity.
  - rewrite Hone. reflexivity.
Qed.

(** * Further properties *)

(** ** Frames *)

Lemma only_trace_refl w : only_trace w w.
Proof. repeat split. Qed.

Lemma only_trace_trans w1 w2 w3 :
  only_trace w1 w2 -> only_trace w2 w3 -> only_trace w1 w3.
Proof.
  unfold only_trace.
  intros (A1 & A2 & A3 & A4 & A5 & A6 & A7) (B1 & B2 & B3 & B4 & B5 & B6 & B7).
  repeat split; congruence.
Qed.

Lemma only_trace_log ev w : only_trace w (log_event ev w).
Proof. repeat split. Qed.

Lemma fetch_frame r w :
  fst (fetch r w) = log_event (EvFetch r) w.
Proof.
  unfold fetch. destruct (server (outside w) (trace w) r); reflexivity.
Qed.

Lemma resolveTxt_frame q w :
  fst (resolveTxt q w) = log_event (EvResolveTxt q) w.
Proof.
  unfold resolveTxt. destruct (resolver (outside w) (trace w) q); reflexivity.
Qed.

Lemma json_as_frame {T} (view : Payload -> option T) r w :
  fst (json_as view r w) = w.
Proof. unfold json_as. destruct (view (payload r)); reflexivity. Qed.

(** ** Bounds and failures of the poll loop *)

Lemma poll_loop_bounded n e rid i : forall w,
  only_trace w (fst (poll_loop n e rid i w))
  /\ exists evs,
       trace (fst (poll_loop n e rid i w)) = trace w ++ evs
       /\ Forall (poll_event (poll_request e rid) (i * 1000)) evs
       /\ (length (List.filter is_fetch evs) <= n)%nat.
Proof.
  induction n as [|n IH]; intros w.
  - cbn. split; [apply only_trace_refl|]. exists [].
    rewrite app_nil_r. repeat split; [constructor | cbn; lia].
  - cbn [poll_loop]. rewrite bind_run. unfold fetch.
    set (req := poll_request e rid).
    set (w1 := log_event (EvFetch req) w).
    assert (forall (c : Completion (list Z)),
               only_trace w (fst (w1, c))
               /\ exists evs,
                    trace (fst (w1, c)) = trace w ++ evs
                    /\ Forall (poll_event req (i * 1000)) evs
                    /\ (length (List.filter is_fetch evs) <= S n)%nat)
      as Hstop.
    { intros c. split; [apply only_trace_log|]. exists [EvFetch req].
      repeat split; [repeat constructor | cbn; lia]. }
    destruct (server (outside w) (trace w) req) as [err|r]; [apply Hstop|].
    fold w1. destruct (ok r); cbn [negb]; [|apply Hstop].
    rewrite bind_run. unfold json_as.
    destruct (as_poll (payload r)) as [p|]; norm; [|apply Hstop].
    destruct (_ && _); [apply Hstop|].
    destruct (bool_decide (poll_status p = js "denied")); [apply Hstop|].
    destruct (bool_decide (poll_status p = js "expired")); [apply Hstop|].
    rewrite bind_run. unfold sleep. cbv beta match.
    set (w2 := log_event (EvTimeout (i * 1000)) w1).
    destruct (IH w2) as (Hframe & evs & Htr & Hall & Hlen).
    split.
    + apply (only_trace_trans w w2); [|exact Hframe]. repeat split.
    + exists ([EvFetch req; EvTimeout (i * 1000)] ++ evs). split; [|split].
      * rewrite Htr. unfold w2, w1. cbn [trace log_event].
        rewrite <- !app_assoc. reflexivity.
      * constructor; [left; reflexivity|].
        constructor; [right; reflexivity | exact Hall].
      * cbn [app List.filter is_fetch length]. lia.
Qed.

(** X1. Whatever the server answers, [pollAuthorization] sends at most
    [maxAttempts] requests (150 by default), every event it causes is
    its poll request or a wait of [pollInterval * 1000] ms, and it
    changes neither the database, nor the files, nor the key cache.
    With [maxAttempts <= 0] it throws the timeout error at once. *)
Theorem pollAuthorization_bounded e rid cap i dom w :
  let attempts := Z.to_nat (default 150 cap) in
  let w' := fst (pollAuthorization e rid cap i dom w) in
  only_trace w w'
  /\ (exists evs,
         trace w' = trace w ++ evs
         /\ Forall (poll_event (poll_request e rid) (default 2 i * 1000)) evs
         /\ (length (List.filter is_fetch evs) <= attempts)%nat)
  /\ (default 150 cap <= 0 ->
      pollAuthorization e rid cap i dom w
      = (w, Throw (Error (js
           "Authorization timeout: maximum poll attempts reached")))).
Proof.
  intros attempts w'. unfold w', pollAuthorization. fold attempts.
  destruct (poll_loop_bounded attempts e rid (default 2 i) w) as [Hf Hev].
  split; [exact Hf|]. split; [exact Hev|].
  intros Hcap. replace attempts with 0%nat by (unfold attempts; lia).
  reflexivity.
Qed.

(** X2. One poll ends the loop with an error, without a wait, when
    the request is rejected (the rejection is passed on as it is),
    when the response is not 2xx ([Poll failed: <status> <text>]), when
    the status is [denied] (with the server's reason, or
    [User declined] when the reason is missing or empty), and when the
    status is [expired]. *)
Theorem poll_loop_failures n e rid i w :
  let req := poll_request e rid in
  let w1 := log_event (EvFetch req) w in
  (forall err,
      server (outside w) (trace w) req = Rejected err ->
      poll_loop (S n) e rid i w = (w1, Throw err))
  /\ (forall r,
         server (outside w) (trace w) req = Resolved r -> ok r = false ->
         poll_loop (S n) e rid i w
         = (w1, Throw (Error (js "Poll failed: " ++ show_Z (status r)
                              ++ js " " ++ statusText r))))
  /\ (forall r p,
         server (outside w) (trace w) req = Resolved r -> ok r = true ->
         payload r = PollDoc p -> poll_status p = js "denied" ->
         poll_loop (S n) e rid i w
         = (w1, Throw (Error (js "Authorization denied: "
                              ++ match poll_reason p with
                                 | Some (c :: reason) => c :: reason
                                 | _ => js "User declined"
                                 end))))
  /\ (forall r p,
         server (outside w) (trace w) req = Resolved r -> ok r = true ->
         payload r = PollDoc p -> poll_status p = js "expired" ->
         poll_loop (S n) e rid i w
         = (w1, Throw (Error (js "Authorization request expired")))).
Proof.
  intros req w1. repeat split.
  - intros err Hs. cbn [poll_loop]. rewrite bind_run. unfold fetch.
    fold req. rewrite Hs. reflexivity.
  - intros r Hs Hok. cbn [poll_loop]. rewrite bind_run. unfold fetch.
    fold req. rewrite Hs, Hok. reflexivity.
  - intros r p Hs Hok Hp Hst. cbn [poll_loop]. rewrite bind_run.
    unfold fetch. fold req. rewrite Hs, Hok. cbn [negb].
    rewrite bind_run. unfold json_as. rewrite Hp. cbn [as_poll]. norm.
    rewrite Hst. cbn [andb bool_decide]. 
    replace (bool_decide (js "denied" = js "authorized")) with false
      by (vm_compute; reflexivity).
    cbn [andb]. rewrite bool_decide_eq_true_2 by reflexivity.
    unfold or_default. destruct (poll_reason p) as [[|c reason]|]; reflexivity.
  - intros r p Hs Hok Hp Hst. cbn [poll_loop]. rewrite bind_run.
    unfold fetch. fold req. rewrite Hs, Hok. cbn [negb].
    rewrite bind_run. unfold json_as. rewrite Hp. cbn [as_poll]. norm.
    rewrite Hst.
    replace (bool_decide (js "expired" = js "authorized")) with false
      by (vm_compute; reflexivity).
    replace (bool_decide (js "expired" = js "denied")) with false
      by (vm_compute; reflexivity).
    cbn [andb]. rewrite bool_decide_eq_true_2 by reflexivity. reflexivity.
Qed.

(** ** The OAuth client *)

Lemma or_default_cases v d :
  or_default v d = match v with Some (c :: s) => c :: s | _ => d end.
Proof. destruct v as [[|c s]|]; reflexivity. Qed.

Lemma exchangeCodeForTokens_frame e code verifier w :
  fst (exchangeCodeForTokens e code verifier w)
  = log_event (EvFetch (exchange_request e code verifier)) w.
Proof.
  unfold exchangeCodeForTokens. rewrite bind_run.
  fold (exchange_request e code verifier). unfold fetch.
  destruct (server _ _ _) as [err|r]; [reflexivity|].
  destruct (ok r); cbn [negb]; [|reflexivity].
  unfold json_as. destruct (as_token (payload r)); reflexivity.
Qed.

(** X3. A token request (code exchange or refresh) sends exactly one
    request and touches nothing else. A rejected request is passed on
    as it is; a response that is not 2xx throws the server's
    [error_description] when that is a non-empty string and the status
    line otherwise, also when the error body is not JSON. *)
Theorem token_endpoint_failures e code verifier rt w :
  fst (exchangeCodeForTokens e code verifier w)
  = log_event (EvFetch (exchange_request e code verifier)) w
  /\ fst (refreshAccessToken e rt w)
     = log_event (EvFetch (refresh_request e rt)) w
  /\ (forall err,
         server (outside w) (trace w) (exchange_request e code verifier)
         = Rejected err ->
         snd (exchangeCodeForTokens e code verifier w) = Throw err)
  /\ (forall err,
         server (outside w) (trace w) (refresh_request e rt) = Rejected err ->
         snd (refreshAccessToken e rt w) = Throw err)
  /\ (forall r,
         server (outside w) (trace w) (exchange_request e code verifier)
         = Resolved r -> ok r = false ->
         snd (exchangeCodeForTokens e code verifier w)
         = Throw (endpoint_failure (js "Token exchange failed: ") r))
  /\ (forall r,
         server (outside w) (trace w) (refresh_request e rt) = Resolved r ->
         ok r = false ->
         snd (refreshAccessToken e rt w)
         = Throw (endpoint_failure (js "Token refresh failed: ") r)).
Proof.
  split; [apply exchangeCodeForTokens_frame|].
  split; [apply refreshAccessToken_one_call|].
  repeat split.
  - intros err Hs. unfold exchangeCodeForTokens. rewrite bind_run.
    fold (exchange_request e code verifier). unfold fetch. rewrite Hs.
    reflexivity.
  - intros err Hs. unfold refreshAccessToken. rewrite bind_run.
    unfold fetch. rewrite Hs. reflexivity.
  - intros r Hs Hok. unfold exchangeCodeForTokens. rewrite bind_run.
    fold (exchange_request e code verifier). unfold fetch.
    rewrite Hs, Hok. cbn [negb snd]. unfold throw, endpoint_failure.
    cbn [snd]. rewrite or_default_cases. unfold status_line.
    destruct (error_description_of r) as [[|c s]|]; reflexivity.
  - intros r Hs Hok. unfold refreshAccessToken. rewrite bind_run.
    unfold fetch. rewrite Hs, Hok. cbn [negb snd].
    unfold throw, endpoint_failure.
    cbn [snd]. rewrite or_default_cases. unfold status_line.
    destruct (error_description_of r) as [[|c s]|]; reflexivity.
Qed.

Lemma initiateAuthorization_frame e email d scopes w :
  fst (initiateAuthorization e email d scopes w)
  = log_event
      (EvFetch (init_request e email d scopes (drawn_verifier w)
                             (drawn_state w)))
      (log_event (EvRandomBytes 32) (log_event (EvRandomBytes 32) w)).
Proof.
  unfold initiateAuthorization, generatePKCE, generateCodeVerifier,
    generateState, generateCodeChallenge.
  unfold bind at 1 2 3. unfold randomBytes at 1. cbv beta match.
  unfold ret at 1. cbv beta match. unfold ret at 1. cbv beta match.
  unfold bind at 1 2. unfold randomBytes at 1. cbv beta match.
  unfold ret at 1. cbv beta match.
  cbn [pkce_code_challenge pkce_code_challenge_method pkce_code_verifier].
  rewrite bind_run.
  match goal with
  | |- context [fetch ?r ?x] =>
      change r with (init_request e email d scopes (drawn_verifier w)
                                  (drawn_state w))
  end.
  set (req := init_request e email d scopes (drawn_verifier w)
                           (drawn_state w)).
  set (w2 := log_event (EvRandomBytes 32) (log_event (EvRandomBytes 32) w)).
  pose proof (fetch_frame req w2) as Hf.
  destruct (fetch req w2) as [w3 [resp|err]]; cbn [fst] in Hf; subst w3;
    [|reflexivity].
  destruct (ok resp); cbn [negb]; [|reflexivity].
  rewrite bind_run. unfold json_as.
  destruct (as_authorization (payload resp)); reflexivity.
Qed.

Lemma initiateAuthorization_verifier e email d scopes w w1 flow :
  initiateAuthorization e email d scopes w = (w1, Return flow) ->
  codeVerifier flow = drawn_verifier w.
Proof.
  unfold initiateAuthorization, generatePKCE, generateCodeVerifier,
    generateState, generateCodeChallenge.
  unfold bind at 1 2 3. unfold randomBytes at 1. cbv beta match.
  unfold ret at 1. cbv beta match. unfold ret at 1. cbv beta match.
  unfold bind at 1 2. unfold randomBytes at 1. cbv beta match.
  unfold ret at 1. cbv beta match.
  cbn [pkce_code_challenge pkce_code_challenge_method pkce_code_verifier].
  rewrite bind_run.
  match goal with
  | |- context [fetch ?r ?x] => destruct (fetch r x) as [w3 [resp|err]]
  end; [|discriminate].
  destruct (ok resp); cbn [negb]; [|discriminate].
  rewrite bind_run. unfold json_as.
  destruct (as_authorization (payload resp)); [|discriminate].
  norm. intros H. injection H as _ <-. reflexivity.
Qed.

(** X4. When [completeAuthorizationFlow] returns, it has sent, in this
    order, one initiation request, the polls and waits of the loop,
    and one code exchange; the [code_verifier] of the exchange is the
    verifier whose SHA-256 was sent as [code_challenge] (method
    [S256]) at initiation; and it has stored nothing. *)
Theorem authorization_flow_binds_verifier e email d scopes cap w w' tok sc :
  completeAuthorizationFlow e email d scopes cap w = (w', Return (tok, sc)) ->
  exists rid ms polled code,
    trace w'
    = trace w
      ++ [EvRandomBytes 32; EvRandomBytes 32;
          EvFetch (init_request e email d scopes (drawn_verifier w)
                                (drawn_state w))]
      ++ polled
      ++ [EvFetch (exchange_request e code (drawn_verifier w))]
    /\ Forall (poll_event (poll_request e rid) ms) polled
    /\ (length (List.filter is_fetch polled)
        <= Z.to_nat (default 150%Z cap))%nat
    /\ sc = split_on 32 (scope tok)
    /\ only_trace w w'.
Proof.
  unfold completeAuthorizationFlow. rewrite bind_run.
  pose proof (initiateAuthorization_frame e email d scopes w) as Hinit.
  destruct (initiateAuthorization e email d scopes w) as [w1 [flow|err]]
    eqn:Einit; [|discriminate].
  cbn [fst] in Hinit.
  pose proof (initiateAuthorization_verifier _ _ _ _ _ _ _ Einit) as Hver.
  rewrite bind_run.
  unfold pollAuthorization. cbn [default from_option]. unfold Datatypes.id.
  destruct (poll_loop_bounded (Z.to_nat (default 150 cap)) e
              (authRequestId flow) (pollInterval flow) w1)
    as (Hframe & polled & Htr & Hall & Hlen).
  destruct (poll_loop _ e (authRequestId flow) (pollInterval flow) w1)
    as [w2 [code|err]]; [|discriminate].
  cbn [fst] in *. rewrite bind_run.
  pose proof (exchangeCodeForTokens_frame e code (codeVerifier flow) w2)
    as Hex.
  destruct (exchangeCodeForTokens e code (codeVerifier flow) w2)
    as [w3 [tokenResponse|err]]; [|discriminate].
  cbn [fst] in Hex. norm. intros H. injection H as <- <- <-.
  exists (authRequestId flow), (pollInterval flow * 1000), polled, code.
  split; [|split; [exact Hall|split; [exact Hlen|split; [reflexivity|]]]].
  - rewrite Hex. cbn [trace log_event]. rewrite Htr, Hinit, Hver.
    cbn [trace log_event]. rewrite <- !app_assoc. reflexivity.
  - apply (only_trace_trans w w1); [rewrite Hinit; repeat split|].
    apply (only_trace_trans w1 w2); [exact Hframe|].
    rewrite Hex. apply only_trace_log.
Qed.

(** ** The tables *)

(** X5. [storeAuthorization] is an upsert by domain: for a record of
    well-formed text, afterwards the row for the domain holds every
    field of the new record except [created_at], which is the old one
    when a row existed; rows of other domains are as they were, and
    nothing outside the table changes. *)
Theorem storeAuthorization_upsert auth w :
  well_formed_record auth ->
  let w' := fst (storeAuthorization auth w) in
  let d := merchant_domain auth in
  getAuthorization d w'
  = (w', Return (Some (with_created_at
                         match merchant_authorizations w !! d with
                         | Some old => created_at old
                         | None => created_at auth
                         end auth)))
  /\ (forall d', d' <> d ->
        merchant_authorizations w' !! d' = merchant_authorizations w !! d')
  /\ trace w' = trace w
  /\ endpoint_cache w' = endpoint_cache w.
Proof.
  intros _ w' d. unfold w', storeAuthorization. cbn [fst].
  split; [|split; [|split; reflexivity]].
  - rewrite getAuthorization_run.
    cbn [merchant_authorizations set_merchant_authorizations].
    fold d. rewrite lookup_insert_eq. cbn [fmap option_fmap option_map].
    destruct (merchant_authorizations w !! d) as [old|];
      destruct auth; reflexivity.
  - intros d' Hne.
    cbn [merchant_authorizations set_merchant_authorizations].
    apply lookup_insert_ne. intros E. apply Hne. symmetry. exact E.
Qed.

(** X6. [updateAuthorizationTokens] on a domain without a row changes
    no row and creates none; on a domain with a row it replaces the two
    envelopes and [expires_at], stamps [updated_at] with the clock, and
    keeps the endpoint, the customer, the scopes and [created_at]. *)
Theorem updateAuthorizationTokens_in_place d access refresh expires w :
  let w' := fst (updateAuthorizationTokens d access refresh expires w) in
  trace w' = trace w ++ [EvNow]
  /\ (merchant_authorizations w !! d = None ->
      merchant_authorizations w' = merchant_authorizations w)
  /\ (forall old,
         merchant_authorizations w !! d = Some old ->
         exists row,
           merchant_authorizations w' !! d = Some row
           /\ access_token_encrypted row = access
           /\ refresh_token_encrypted row = refresh
           /\ expires_at row = expires
           /\ updated_at row = clock (outside w) (trace w)
           /\ scp_endpoint row = scp_endpoint old
           /\ customer_id row = customer_id old
           /\ customer_email row = customer_email old
           /\ scopes row = scopes old
           /\ created_at row = created_at old)
  /\ (forall d', d' <> d ->
        merchant_authorizations w' !! d' = merchant_authorizations w !! d').
Proof.
  intros w'. unfold w', updateAuthorizationTokens, bind, Date_now.
  cbn [fst trace log_event merchant_authorizations
         set_merchant_authorizations outside].
  split; [reflexivity|]. split; [|split].
  - intros Hnone. apply map_eq. intros d'.
    destruct (decide (d = d')) as [<-|Hne].
    + rewrite lookup_alter_eq, Hnone. reflexivity.
    + apply lookup_alter_ne. exact Hne.
  - intros old Hold. eexists. rewrite lookup_alter_eq, Hold.
    cbn [fmap option_fmap option_map]. split; [reflexivity|].
    repeat split.
  - intros d' Hne. apply lookup_alter_ne. intros E. apply Hne.
    symmetry. exact E.
Qed.


(** ** Discovery *)

Lemma demo_disabled_load w :
  demo_disabled w ->
  exists config,
    loadConfig w = (w, Return config)
    /\ default false (demo_mode config) = false.
Proof.
  intros (c & Hfile & Hoff). unfold loadConfig. rewrite Hfile.
  eexists. split; [reflexivity|]. cbn. rewrite Hoff. reflexivity.
Qed.

(** Discovery up to the cache, with no override and demo mode off. *)
Lemma discovery_past_demo d w :
  truthy_string (SCP_TEST_ENDPOINT w) = None -> demo_disabled w ->
  discoverSCPEndpoint d w
  = first_hit [source_cache d; source_dns d; source_well_known d;
               source_header d] w.
Proof.
  intros Hov Hoff. rewrite discoverSCPEndpoint_chain.
  unfold discovery_chain.
  change (first_hit (?a :: ?b :: ?rest))
    with (await f1 <- a ;;
          match f1 with
          | Some x => ret (Some x)
          | None =>
              await f2 <- b ;;
              match f2 with
              | Some x => ret (Some x)
              | None => first_hit rest
              end
          end).
  rewrite bind_run. unfold source_override.
  rewrite (no_override_miss d w Hov). rewrite bind_run. unfold source_demo.
  rewrite bind_run.
  destruct (demo_disabled_load w Hoff) as (config & Hload & Hdemo).
  rewrite Hload, Hdemo. reflexivity.
Qed.

Lemma match_endpoint_here_truthy s m :
  match_endpoint_here s = Some m -> truthy_string (Some m) = Some m.
Proof.
  unfold match_endpoint_here.
  destruct (strip_prefix _ s); [|discriminate].
  destruct (take_nonspace _); [discriminate|].
  intros H. injection H as <-. reflexivity.
Qed.

Lemma match_endpoint_truthy s : forall m,
  match_endpoint s = Some m -> truthy_string (Some m) = Some m.
Proof.
  induction s as [|c s IH]; intros m; cbn [match_endpoint].
  - destruct (match_endpoint_here []) eqn:E; [|discriminate].
    intros H. injection H as <-. exact (match_endpoint_here_truthy _ _ E).
  - destruct (match_endpoint_here (c :: s)) eqn:E.
    + intros H. injection H as <-. exact (match_endpoint_here_truthy _ _ E).
    + apply IH.
Qed.

Lemma scan_records_truthy records : forall e,
  scan_records records = Some e -> truthy_string (Some e) = Some e.
Proof.
  intros e H. destruct (scan_records_Some records e H) as (r & _ & _ & Hm).
  exact (match_endpoint_truthy _ _ Hm).
Qed.

Lemma tryDNSDiscovery_run d w :
  tryDNSDiscovery d w
  = (log_event (EvResolveTxt (DNS_QUERY_PREFIX ++ d)) w,
     match resolver (outside w) (trace w) (DNS_QUERY_PREFIX ++ d) with
     | DnsRecords records => Return (scan_records records)
     | DnsFailure err => if dns_miss err then Return None else Throw err
     end).
Proof.
  unfold tryDNSDiscovery, try_catch, bind, resolveTxt, dns_miss.
  destruct (resolver (outside w) (trace w) (DNS_QUERY_PREFIX ++ d))
    as [err|records]; [|reflexivity].
  cbv zeta. destruct (_ || _); reflexivity.
Qed.

Lemma tryDNSDiscovery_truthy d w w' e :
  tryDNSDiscovery d w = (w', Return (Some e)) ->
  truthy_string (Some e) = Some e.
Proof.
  rewrite tryDNSDiscovery_run.
  destruct (resolver _ _ _) as [err|records].
  - destruct (dns_miss err); discriminate.
  - intros H. injection H as _ H. exact (scan_records_truthy _ _ H).
Qed.

(** X8. With no override and demo mode off, a domain that misses the
    cache and resolves by DNS is written to the cache with a ttl of
    86400 seconds; a second discovery that starts within those 24
    hours returns the same endpoint after one clock read, with no DNS
    query and no request. *)
Theorem discovery_reuses_dns_result d w w1 w2 e :
  truthy_string (SCP_TEST_ENDPOINT w) = None -> demo_disabled w ->
  getCachedEndpoint d w = (w1, Return None) ->
  tryDNSDiscovery d w1 = (w2, Return (Some e)) ->
  let found_at := clock (outside w2) (trace w2) in
  let entry :=
    {| domain := d; endpoint := e; capabilities := None;
       discovered_at := found_at; ttl := 86400 |} in
  let w3 :=
    set_endpoint_cache (<[d := entry]> (endpoint_cache w2))
                       (log_event EvNow w2) in
  discoverSCPEndpoint d w = (w3, Return (Some e))
  /\ (clock (outside w3) (trace w3) - found_at <= 86400000 ->
      discoverSCPEndpoint d w3 = (log_event EvNow w3, Return (Some e))).
Proof.
  intros Hov Hoff Hmiss Hdns found_at entry w3.
  pose proof (tryDNSDiscovery_truthy _ _ _ _ Hdns) as Htruthy.
  assert (getCachedEndpoint d w = (w1, Return None)
          -> SCP_TEST_ENDPOINT w1 = SCP_TEST_ENDPOINT w
             /\ config_file w1 = config_file w) as Hkeep1.
  { unfold getCachedEndpoint. destruct (endpoint_cache w !! d).
    - unfold bind, Date_now. cbv beta match.
      destruct (_ >? _); intros H; injection H as <-; split; reflexivity.
    - intros H. injection H as <-. split; reflexivity. }
  destruct (Hkeep1 Hmiss) as [Henv1 Hcfg1].
  assert (w2 = log_event (EvResolveTxt (DNS_QUERY_PREFIX ++ d)) w1) as Hw2.
  { rewrite tryDNSDiscovery_run in Hdns. injection Hdns as <- _.
    reflexivity. }
  split.
  - rewrite (discovery_past_demo d w Hov Hoff). cbn [first_hit].
    rewrite bind_run. unfold source_cache. rewrite bind_run, Hmiss. norm.
    cbn [fmap option_fmap option_map]. rewrite bind_run. unfold source_dns.
    rewrite bind_run, Hdns. unfold remember_endpoint. rewrite Htruthy.
    unfold bind, Date_now, cacheEndpoint. cbv beta match.
    cbn [domain endpoint capabilities discovered_at ttl Z.eqb].
    reflexivity.
  - intros Hfresh.
    assert (truthy_string (SCP_TEST_ENDPOINT w3) = None) as Hov3.
    { unfold w3. cbn [SCP_TEST_ENDPOINT set_endpoint_cache log_event].
      rewrite Hw2. cbn [SCP_TEST_ENDPOINT log_event]. rewrite Henv1.
      exact Hov. }
    assert (demo_disabled w3) as Hoff3.
    { destruct Hoff as (c & Hfile & Hmode). exists c. split; [|exact Hmode].
      unfold w3. cbn [config_file set_endpoint_cache log_event].
      rewrite Hw2. cbn [config_file log_event]. rewrite Hcfg1. exact Hfile. }
    rewrite (discovery_past_demo d w3 Hov3 Hoff3). cbn [first_hit].
    rewrite bind_run. unfold source_cache. rewrite bind_run.
    unfold getCachedEndpoint.
    assert (endpoint_cache w3 !! d = Some entry) as Hrow
      by (unfold w3; cbn [endpoint_cache set_endpoint_cache];
          apply lookup_insert_eq).
    rewrite Hrow. unfold bind, Date_now. cbv beta match.
    cbn [discovered_at ttl entry].
    destruct (Z.gtb_spec (clock (outside w3) (trace w3) - found_at)
                (86400 * 1000)); [lia|].
    reflexivity.
Qed.

(** X9. A DNS failure whose code is neither [ENOTFOUND] nor [ENODATA]
    is rethrown by [tryDNSDiscovery] as it is, and it ends
    [discoverSCPEndpoint] right there: no HTTPS probe is sent and the
    cache is not written. The two codes count as a miss. *)
Theorem dns_failure_ends_discovery d w w1 err :
  truthy_string (SCP_TEST_ENDPOINT w) = None -> demo_disabled w ->
  getCachedEndpoint d w = (w1, Return None) ->
  resolver (outside w1) (trace w1) (DNS_QUERY_PREFIX ++ d) = DnsFailure err ->
  let w2 := log_event (EvResolveTxt (DNS_QUERY_PREFIX ++ d)) w1 in
  (dns_miss err = false ->
   tryDNSDiscovery d w1 = (w2, Throw err)
   /\ discoverSCPEndpoint d w = (w2, Throw err))
  /\ (dns_miss err = true -> tryDNSDiscovery d w1 = (w2, Return None)).
Proof.
  intros Hov Hoff Hmiss Hres w2. split.
  - intros Hcode.
    assert (tryDNSDiscovery d w1 = (w2, Throw err)) as Hdns
      by (rewrite tryDNSDiscovery_run, Hres, Hcode; reflexivity).
    split; [exact Hdns|].
    rewrite (discovery_past_demo d w Hov Hoff). cbn [first_hit].
    rewrite bind_run. unfold source_cache. rewrite bind_run, Hmiss. norm.
    cbn [fmap option_fmap option_map]. rewrite bind_run. unfold source_dns.
    rewrite bind_run, Hdns. reflexivity.
  - intros Hcode. rewrite tryDNSDiscovery_run, Hres, Hcode. reflexivity.
Qed.

Lemma tryWellKnown_frame d w :
  fst (tryWellKnown d w) = log_event (EvFetch (well_known_request d)) w
  /\ exists found, snd (tryWellKnown d w) = Return found.
Proof.
  unfold tryWellKnown, try_catch, bind, fetch, json_as.
  destruct (server _ _ _) as [err|r]; [split; [|eexists]; reflexivity|].
  destruct (ok r); [|split; [|eexists]; reflexivity].
  destruct (as_any_endpoint (payload r)); split; try eexists; reflexivity.
Qed.

Lemma tryHeader_frame d w :
  fst (tryHeader d w) = log_event (EvFetch (header_request d)) w
  /\ exists found, snd (tryHeader d w) = Return found.
Proof.
  unfold tryHeader, try_catch, bind, fetch.
  destruct (server _ _ _) as [err|r]; split; try eexists; reflexivity.
Qed.

(** X10. [tryFallbackDiscovery] never throws, whatever the server
    does: it sends the well-known GET, and the HEAD request only when
    the GET gave no endpoint; it changes nothing but the trace. *)
Theorem fallback_discovery_never_throws d w :
  let req1 := EvFetch (well_known_request d) in
  let req2 := EvFetch (header_request d) in
  exists found,
    snd (tryFallbackDiscovery d w) = Return found
    /\ only_trace w (fst (tryFallbackDiscovery d w))
    /\ ((trace (fst (tryFallbackDiscovery d w)) = trace w ++ [req1]
         /\ snd (tryWellKnown d w) = Return found
         /\ found <> None)
        \/ (trace (fst (tryFallbackDiscovery d w)) = trace w ++ [req1; req2]
            /\ snd (tryWellKnown d w) = Return None)).
Proof.
  intros req1 req2. unfold tryFallbackDiscovery. rewrite bind_run.
  destruct (tryWellKnown_frame d w) as (Hw1 & f1 & Hr1).
  destruct (tryWellKnown d w) as [w1 c1]. cbn [fst snd] in *. subst c1 w1.
  destruct f1 as [e|].
  - exists (Some e). norm. cbn [fst snd].
    split; [reflexivity|]. split; [apply only_trace_log|].
    left. repeat split. discriminate.
  - destruct (tryHeader_frame d (log_event (EvFetch (well_known_request d)) w))
      as (Hw2 & f2 & Hr2).
    destruct (tryHeader d _) as [w2 c2]. cbn [fst snd] in *. subst c2 w2.
    exists f2. split; [reflexivity|]. split; [repeat split|].
    right. split; [|reflexivity]. cbn [trace log_event].
    rewrite <- app_assoc. reflexivity.
Qed.

Lemma fetchCapabilities_run e w :
  fetchCapabilities e w
  = (log_event (EvFetch (capabilities_request e)) w,
     snd (fetchCapabilities e w)).
Proof.
  unfold fetchCapabilities. fold (capabilities_request e).
  rewrite bind_run. unfold fetch.
  destruct (server _ _ _) as [err|r]; [reflexivity|].
  destruct (ok r); cbn [negb]; [|reflexivity].
  unfold json_as. destruct (as_capabilities (payload r)); reflexivity.
Qed.


(** ** The master key *)

Lemma getMasterKey_caches w :
  exists w1 key,
    getMasterKey w = (w1, Return key) /\ masterKeyCache w1 = Some key.
Proof.
  unfold getMasterKey. destruct (masterKeyCache w) as [k|] eqn:Hc.
  - exists w, k. split; [reflexivity | exact Hc].
  - rewrite bind_run. unfold getEncryptionKey.
    destruct (encryption_keys w) as [row|]; cbv beta match.
    + eexists _, _. split; reflexivity.
    + unfold bind, randomBytes, storeEncryptionKey, Date_now, set_key_cache,
        ret.
      cbn. eexists _, _. split; reflexivity.
Qed.

Lemma ascii_well_formed s :
  Forall (fun c => 0 <= c < 128) s -> well_formed_utf16 s = true.
Proof.
  induction 1 as [|c s Hc _ IH]; [reflexivity|].
  cbn [well_formed_utf16].
  unfold is_high_surrogate, is_low_surrogate, in_range.
  destruct (Z.leb_spec 0xD800 c); [lia|]. cbn [andb].
  destruct (Z.leb_spec 0 c); [|lia].
  destruct (Z.leb_spec c 0xFFFF); [|lia].
  destruct (Z.leb_spec 0xDC00 c); [lia|]. exact IH.
Qed.

Lemma hex_encode_ascii bs : Forall (fun c => 0 <= c < 128) (hex_encode bs).
Proof.
  induction bs as [|b bs IH]; cbn [hex_encode]; [constructor|].
  pose proof (byte_to_Z_range b) as Hb.
  assert (0 <= byte_to_Z b / 16 < 16) as Hhi
    by (split; [apply Z.div_pos; lia | apply Z.div_lt_upper_bound; lia]).
  assert (0 <= byte_to_Z b mod 16 < 16) as Hlo
    by (apply Z.mod_pos_bound; lia).
  constructor; [|constructor; [|exact IH]]; unfold hex_digit;
    destruct (_ <? 10); lia.
Qed.

(** X12. The first [initEncryption] of an installation draws a salt
    and a key of 32 bytes each and stores the key in hex; a second call
    in the same process does nothing; and a later process that starts
    with an empty cache and the same key row loads the same key without
    drawing anything, so that it opens the envelopes the first process
    wrote. *)
Theorem master_key_survives_restart w w2 :
  masterKeyCache w = None -> encryption_keys w = None ->
  masterKeyCache w2 = None ->
  encryption_keys w2 = encryption_keys (fst (initEncryption w)) ->
  let w1 := fst (initEncryption w) in
  exists key,
    masterKeyCache w1 = Some key
    /\ length key = KEY_LENGTH
    /\ trace w1
       = trace w ++ [EvRandomBytes SALT_LENGTH; EvRandomBytes KEY_LENGTH;
                     EvNow]
    /\ initEncryption w1 = (w1, Return tt)
    /\ initEncryption w2 = (set_masterKeyCache (Some key) w2, Return tt)
    /\ (forall token iv,
           length iv = IV_LENGTH ->
           decryptToken (envelope_of key iv token)
                        (set_masterKeyCache (Some key) w2)
           = (set_masterKeyCache (Some key) w2,
              Return (utf8_decode (utf8_encode token)))).
Proof.
  intros Hc Hrow Hc2 Hrow2 w1.
  assert (exists key,
             masterKeyCache w1 = Some key /\ length key = KEY_LENGTH
             /\ trace w1
                = trace w ++ [EvRandomBytes SALT_LENGTH;
                              EvRandomBytes KEY_LENGTH; EvNow]
             /\ (key_hex <$> encryption_keys w1) = Some (hex_encode key))
    as (key & Hk & Hlen & Htr & Hhex).
  { unfold w1, initEncryption, getMasterKey.
    rewrite bind_run, Hc. rewrite bind_run. unfold getEncryptionKey.
    rewrite Hrow. cbv beta match.
    unfold bind, randomBytes, storeEncryptionKey, Date_now, set_key_cache,
      ret.
    cbn. eexists. split; [reflexivity|]. split; [apply length_resize|].
    split; [|reflexivity]. rewrite <- !app_assoc. reflexivity. }
  exists key. split; [exact Hk|]. split; [exact Hlen|]. split; [exact Htr|].
  split; [|split].
  - unfold initEncryption, getMasterKey. rewrite bind_run, Hk. reflexivity.
  - fold w1 in Hrow2. rewrite <- Hrow2 in Hhex.
    destruct (encryption_keys w2) as [row|] eqn:Erow; [|discriminate].
    rewrite (initEncryption_reload w2 row Hc2 Erow).
    cbn [fmap option_fmap option_map] in Hhex. injection Hhex as Hhex.
    rewrite Hhex, hex_decode_encode. reflexivity.
  - intros token iv Hiv. apply decryptToken_envelope; [reflexivity | |];
      assumption.
Qed.

(** X13. [testEncryption] never throws. Its verdict is whether the
    master key that [getMasterKey] yields has 32 bytes; so a fresh
    installation passes the self-test, and one whose stored key row
    has another length fails it. *)
Theorem testEncryption_verdict w :
  exists w1 key,
    getMasterKey w = (w1, Return key)
    /\ snd (testEncryption w)
       = Return (bool_decide (length key = KEY_LENGTH))
    /\ (masterKeyCache w = None -> encryption_keys w = None ->
        snd (testEncryption w) = Return true).
Proof.
  destruct (getMasterKey_caches w) as (w1 & key & Hget & Hk).
  exists w1, key. split; [exact Hget|].
  assert (snd (testEncryption w)
          = Return (bool_decide (length key = KEY_LENGTH))) as Hverdict.
  { unfold testEncryption, try_catch. rewrite bind_run.
    unfold initEncryption. rewrite bind_run, Hget. norm.
    rewrite bind_run. unfold randomBytes at 1. cbv beta match.
    set (bytes := resize 16 x00 _).
    set (w2 := log_event (EvRandomBytes 16) w1).
    assert (masterKeyCache w2 = Some key) as Hk2 by exact Hk.
    rewrite bind_run.
    destruct (decide (length key = KEY_LENGTH)) as [Hlen|Hlen].
    - rewrite (encryptToken_run _ w2 key Hk2 Hlen). rewrite bind_run.
      rewrite (decryptToken_envelope _ _ _ key);
        [|exact Hk2 | exact Hlen | apply fresh_iv_length].
      rewrite utf8_roundtrip.
      + cbn [snd]. rewrite !bool_decide_eq_true_2; [reflexivity | | ]; 
          [exact Hlen | reflexivity].
      + apply ascii_well_formed. apply Forall_app. split.
        * vm_compute. repeat constructor; discriminate.
        * apply hex_encode_ascii.
    - unfold encryptToken. rewrite Hk2. rewrite bind_run.
      unfold randomBytes. rewrite bind_run. unfold check_key.
      rewrite !bool_decide_eq_false_2 by exact Hlen. reflexivity. }
  split; [exact Hverdict|].
  intros Hc Hrow. rewrite Hverdict.
  destruct (initEncryption_fresh w Hc Hrow) as (w' & k & Hinit & Hk' & Hlen & _).
  unfold initEncryption in Hinit. rewrite bind_run, Hget in Hinit.
  unfold ret in Hinit. injection Hinit as <-.
  rewrite Hk in Hk'. injection Hk' as <-.
  rewrite bool_decide_eq_true_2 by exact Hlen. reflexivity.
Qed.

(** ** The handlers *)

(** X14. [scopes_match] holds exactly when the two scope lists are
    equal as sets: order and repetition do not count. *)
Theorem scopes_match_iff_same_set existing requested :
  scopes_match existing requested = true
  <-> (forall s, s ∈ requested <-> s ∈ existing).
Proof.
  split; [|apply scopes_match_same_set].
  unfold scopes_match. cbv zeta. intros H.
  apply andb_true_iff in H as [Hlen Hall].
  apply bool_decide_eq_true in Hlen.
  assert (forall s, s ∈ js_set requested -> s ∈ js_set existing) as Hsub.
  { intros s Hs. rewrite forallb_forall in Hall.
    apply list_elem_of_In in Hs. specialize (Hall s Hs).
    unfold set_has in Hall. apply bool_decide_eq_true in Hall. exact Hall. }
  assert (js_set requested ≡ₚ js_set existing) as Hperm.
  { apply submseteq_length_Permutation; [|lia].
    apply NoDup_submseteq; [apply NoDup_js_set | exact Hsub]. }
  intros s. rewrite <- (elem_of_js_set s requested),
              <- (elem_of_js_set s existing).
  rewrite Hperm. reflexivity.
Qed.


(** X15. When the merchant's capabilities list the supported scopes
    and a requested scope is not among them, the authorization stops
    after discovery with [Unsupported scopes: ...], naming the
    unsupported scopes in the order of the request: no authorization
    request is sent and nothing is stored. A first authorization with
    an address that passes the guard ends the same way. *)
Theorem unsupported_scopes_rejected d email requested existing w w1 e caps
    supported s :
  discoverWithCapabilities d w = (w1, Return (Some (e, Some caps))) ->
  scopes_supported caps = Some supported ->
  s ∈ requested -> s ∉ supported ->
  let refusal :=
    Error (js "Unsupported scopes: "
           ++ join (js ", ") (filter (fun s => s ∉ supported) requested)) in
  s ∈ filter (fun s => s ∉ supported) requested
  /\ authorize_flow d email requested existing w = (w1, Throw refusal)
  /\ (is_example_email email = false ->
      merchant_authorizations w !! d = None ->
      handleAuthorize d email requested w = (w1, Throw refusal)).
Proof.
  intros Hdisc Hsup Hin Hout refusal.
  assert (s ∈ filter (fun s => s ∉ supported) requested) as Hbad
    by (apply list_elem_of_filter; split; assumption).
  assert (authorize_flow d email requested existing w = (w1, Throw refusal))
    as Hflow.
  { unfold authorize_flow. rewrite bind_run, Hdisc. cbv beta iota zeta.
    rewrite Hsup. rewrite bool_decide_eq_false_2; [reflexivity|].
    intros Hnil. rewrite Hnil in Hbad. inversion Hbad. }
  split; [exact Hbad|]. split; [exact Hflow|].
  intros Hguard Hrow. unfold handleAuthorize. rewrite Hguard.
  rewrite bind_run, getAuthorization_run, Hrow.
  cbn [fmap option_fmap option_map].
  unfold authorize_flow. rewrite bind_run, Hdisc. cbv beta iota zeta.
  rewrite Hsup. rewrite bool_decide_eq_false_2; [reflexivity|].
  intros Hnil. rewrite Hnil in Hbad. inversion Hbad.
Qed.


(** ** Frames of the token manager and of revocation *)

Lemma only_row_refl d w : only_row d w w.
Proof. repeat split. Qed.

Lemma only_row_trans d w1 w2 w3 :
  only_row d w1 w2 -> only_row d w2 w3 -> only_row d w1 w3.
Proof.
  intros (a1 & a2 & a3 & a4 & a5 & a6 & a7) (b1 & b2 & b3 & b4 & b5 & b6 & b7).
  repeat split; try congruence.
  intros d' Hne. rewrite (b7 d' Hne). apply a7, Hne.
Qed.

Lemma only_trace_row d w w' : only_trace w w' -> only_row d w w'.
Proof.
  intros (a1 & a2 & a3 & a4 & a5 & a6 & a7). repeat split; try assumption.
  intros d' _. rewrite a4. reflexivity.
Qed.

Lemma keeps_bind {A B} d (c : M A) (k : A -> M B) :
  keeps (only_row d) c -> (forall a, keeps (only_row d) (k a)) ->
  keeps (only_row d) (bind c k).
Proof.
  intros Hc Hk w. rewrite bind_run. specialize (Hc w).
  destruct (c w) as [w1 [a|err]]; cbn [fst] in *; [|exact Hc].
  apply (only_row_trans d w w1); [exact Hc | apply Hk].
Qed.

Lemma keeps_try_catch {A} d (c : M A) (h : JSError -> M A) :
  keeps (only_row d) c -> (forall err, keeps (only_row d) (h err)) ->
  keeps (only_row d) (try_catch c h).
Proof.
  intros Hc Hh w. unfold try_catch. specialize (Hc w).
  destruct (c w) as [w1 [a|err]]; cbn [fst] in *; [exact Hc|].
  apply (only_row_trans d w w1); [exact Hc | apply Hh].
Qed.

Lemma keeps_ret {A} d (a : A) : keeps (only_row d) (ret a).
Proof. intros w. apply only_row_refl. Qed.

Lemma keeps_throw {A} d err : keeps (only_row d) (@throw A err).
Proof. intros w. apply only_row_refl. Qed.

Lemma keeps_Date_now d : keeps (only_row d) Date_now.
Proof. intros w. apply only_trace_row, only_trace_log. Qed.

Lemma keeps_decryptToken d encrypted :
  keeps (only_row d) (decryptToken encrypted).
Proof. intros w. rewrite decryptToken_world. apply only_row_refl. Qed.

Lemma keeps_encryptToken d token : keeps (only_row d) (encryptToken token).
Proof.
  intros w. unfold encryptToken.
  destruct (masterKeyCache w) as [key|]; [|apply only_row_refl].
  rewrite bind_run. unfold randomBytes. rewrite bind_run. unfold check_key.
  destruct (bool_decide (length key = KEY_LENGTH)); norm;
    apply only_trace_row, only_trace_log.
Qed.

Lemma keeps_refreshAccessToken d ep rt :
  keeps (only_row d) (refreshAccessToken ep rt).
Proof.
  intros w. rewrite refreshAccessToken_one_call.
  apply only_trace_row, only_trace_log.
Qed.

Lemma keeps_revokeToken d ep token : keeps (only_row d) (revokeToken ep token).
Proof.
  intros w. unfold revokeToken. rewrite bind_run. unfold fetch.
  destruct (server _ _ _) as [err|r];
    [apply only_trace_row, only_trace_log|].
  destruct (ok r); apply only_trace_row, only_trace_log.
Qed.

Lemma keeps_updateAuthorizationTokens d access refresh expires :
  keeps (only_row d) (updateAuthorizationTokens d access refresh expires).
Proof.
  intros w. unfold updateAuthorizationTokens, bind, Date_now.
  cbv beta iota. repeat split.
  intros d' Hne. cbn [fst merchant_authorizations set_merchant_authorizations
                        log_event].
  apply lookup_alter_ne. intros E. apply Hne. symmetry. exact E.
Qed.

Lemma keeps_deleteAuthorization d : keeps (only_row d) (deleteAuthorization d).
Proof.
  intros w. unfold deleteAuthorization. repeat split.
  intros d' Hne. cbn [fst merchant_authorizations set_merchant_authorizations].
  apply lookup_delete_ne. intros E. apply Hne. symmetry. exact E.
Qed.

Lemma keeps_refreshTokenIfNeeded auth :
  keeps (only_row (merchant_domain auth)) (refreshTokenIfNeeded auth).
Proof.
  unfold refreshTokenIfNeeded.
  apply keeps_bind; [apply keeps_decryptToken|]. intros rt.
  apply keeps_try_catch; [|intros err; apply keeps_throw].
  apply keeps_bind; [apply keeps_refreshAccessToken|]. intros tokens.
  apply keeps_bind; [apply keeps_encryptToken|]. intros a.
  apply keeps_bind; [apply keeps_encryptToken|]. intros r.
  apply keeps_bind; [apply keeps_Date_now|]. intros now.
  apply keeps_updateAuthorizationTokens.
Qed.

Lemma keeps_getValidAccessToken d : keeps (only_row d) (getValidAccessToken d).
Proof.
  intros w. unfold getValidAccessToken.
  rewrite bind_run, getAuthorization_run.
  destruct (merchant_authorizations w !! d) as [stored|];
    cbn [fmap option_fmap option_map]; [|apply only_row_refl].
  revert w. change (keeps (only_row d)
    (await now <- Date_now ;;
     let timeUntilExpiry :=
       expires_at (with_merchant_domain d stored) - now in
     if timeUntilExpiry <? TOKEN_REFRESH_THRESHOLD then
       await _ <- refreshTokenIfNeeded (with_merchant_domain d stored) ;;
       await updated <- getAuthorization d ;;
       match updated with
       | None => throw (Error (js "Authorization lost after refresh"))
       | Some updatedAuth =>
           decryptToken (access_token_encrypted updatedAuth)
       end
     else decryptToken
            (access_token_encrypted (with_merchant_domain d stored)))).
  apply keeps_bind; [apply keeps_Date_now|]. intros now. cbv zeta.
  destruct (_ <? _); [|apply keeps_decryptToken].
  apply keeps_bind;
    [exact (keeps_refreshTokenIfNeeded (with_merchant_domain d stored))|].
  intros _. apply keeps_bind; [intros w; apply only_row_refl|].
  intros [updated|]; [apply keeps_decryptToken | apply keeps_throw].
Qed.

(** X17. Fetching a valid access token for one merchant, with or
    without a refresh, and revoking one merchant's authorization, with
    or without an answer from its server, change nothing but the trace
    and that merchant's record: the records of all other merchants, the
    endpoint cache, the configuration and the key are untouched. *)
Theorem other_merchants_untouched d w :
  only_row d w (fst (getValidAccessToken d w))
  /\ only_row d w (fst (handleRevokeAuthorization d w)).
Proof.
  split; [apply keeps_getValidAccessToken|].
  revert w. change (keeps (only_row d) (handleRevokeAuthorization d)).
  unfold handleRevokeAuthorization.
  apply keeps_bind; [intros w; apply only_row_refl|].
  intros [auth|]; [|apply keeps_throw].
  apply keeps_bind.
  - apply keeps_try_catch; [|intros err; apply keeps_ret].
    apply keeps_bind; [apply keeps_getValidAccessToken|].
    intros token. apply keeps_revokeToken.
  - intros _. apply keeps_bind; [apply keeps_deleteAuthorization|].
    intros _. apply keeps_ret.
Qed.

(** ** The configuration file *)

(** X18. What [saveConfig] writes, [loadConfig] reads back: the saved
    configuration itself when it has both optional fields, and
    otherwise the saved configuration with a missing [demo_mode] read
    as [true] and a missing [demo_endpoint] as the demo endpoint. A
    second [loadConfig] returns what the first returned and writes
    nothing. *)
Theorem saved_config_loads_back config w :
  let w1 := fst (saveConfig config w) in
  loadConfig w1
  = (w1, Return {| dns_resolver := dns_resolver config;
                   dns_cache_ttl := dns_cache_ttl config;
                   poll_interval := poll_interval config;
                   max_poll_attempts := max_poll_attempts config;
                   token_refresh_threshold := token_refresh_threshold config;
                   request_timeout := request_timeout config;
                   demo_mode := Some (default true (demo_mode config));
                   demo_endpoint :=
                     Some (default (js
                             "https://demo.shoppercontextprotocol.io/v1")
                             (demo_endpoint config)) |})
  /\ (demo_mode config <> None -> demo_endpoint config <> None ->
      loadConfig w1 = (w1, Return config))
  /\ loadConfig (fst (loadConfig w))
     = (fst (loadConfig w), snd (loadConfig w)).
Proof.
  intros w1. split; [|split].
  - unfold w1, saveConfig, loadConfig.
    cbn [fst config_file set_config_file]. unfold spread, config_object.
    cbn. destruct (demo_mode config), (demo_endpoint config); reflexivity.
  - intros Hmode Hend. unfold w1, saveConfig, loadConfig.
    cbn [fst config_file set_config_file]. unfold spread, config_object.
    cbn. destruct config as [a b c d' e f [m|] [p|]]; cbn in *;
      try congruence.
  - unfold loadConfig. destruct (config_file w) as [[|c]|] eqn:E; cbn [fst snd].
    + rewrite E. reflexivity.
    + rewrite E. reflexivity.
    + cbn [config_file set_config_file]. reflexivity.
Qed.

(** ** Revocation at the server *)

Lemma revokeToken_one_call ep token w :
  fst (revokeToken ep token w) = log_event (EvFetch (revoke_request ep token)) w.
Proof.
  unfold revokeToken. fold (revoke_request ep token). rewrite bind_run.
  unfold fetch. destruct (server _ _ _) as [err|r]; [reflexivity|].
  destruct (ok r); reflexivity.
Qed.

(** X19. Revoking a merchant whose stored access token is still at
    least five minutes from expiry reads the clock once, sends one
    revocation request that carries the decrypted stored token to the
    stored endpoint, and deletes the record; the outcome of that
    request changes neither the result nor the final state. *)
Theorem revoke_sends_stored_token d w auth key iv token :
  merchant_authorizations w !! d = Some auth ->
  masterKeyCache w = Some key -> length key = KEY_LENGTH ->
  length iv = IV_LENGTH ->
  access_token_encrypted auth = envelope_of key iv token ->
  well_formed_utf16 token = true ->
  TOKEN_REFRESH_THRESHOLD <= expires_at auth - clock (outside w) (trace w) ->
  handleRevokeAuthorization d w
  = (set_merchant_authorizations (delete d (merchant_authorizations w))
       (log_event (EvFetch (revoke_request (scp_endpoint auth) token))
          (log_event EvNow w)),
     Return {| text := [0x2713] ++ js " Revoked authorization for " ++ d |}).
Proof.
  intros Hrow Hk Hlen Hiv Henv Hwf Hfresh.
  unfold handleRevokeAuthorization.
  rewrite bind_run, getAuthorization_run, Hrow.
  cbn [fmap option_fmap option_map]. rewrite bind_run.
  unfold try_catch at 1. rewrite bind_run.
  assert (getValidAccessToken d w = (log_event EvNow w, Return token))
    as Htoken.
  { unfold getValidAccessToken. rewrite bind_run, getAuthorization_run, Hrow.
    cbn [fmap option_fmap option_map]. rewrite bind_run.
    unfold Date_now at 1. cbv beta iota zeta.
    cbn [with_merchant_domain expires_at access_token_encrypted].
    destruct (Z.ltb_spec (expires_at auth - clock (outside w) (trace w))
                TOKEN_REFRESH_THRESHOLD); [lia|].
    rewrite Henv.
    rewrite (decryptToken_envelope token iv (log_event EvNow w) key);
      [|exact Hk | exact Hlen | exact Hiv].
    rewrite utf8_roundtrip by exact Hwf. reflexivity. }
  rewrite Htoken. cbn [with_merchant_domain scp_endpoint].
  pose proof (revokeToken_one_call (scp_endpoint auth) token
                (log_event EvNow w)) as Hcall.
  destruct (revokeToken (scp_endpoint auth) token (log_event EvNow w))
    as [w2 [[]|err]]; cbn [fst] in Hcall; subst w2; norm;
    rewrite bind_run; reflexivity.
Qed.

(** ** What discovery and a failed authorization leave alone *)

Lemma discovery_frame_refl d w : discovery_frame d w w.
Proof. repeat split. left. reflexivity. Qed.

Lemma discovery_frame_trans d w1 w2 w3 :
  discovery_frame d w1 w2 -> discovery_frame d w2 w3 ->
  discovery_frame d w1 w3.
Proof.
  intros (a1 & a2 & a3 & a4 & a5 & a6 & a7) (b1 & b2 & b3 & b4 & b5 & b6 & b7).
  repeat split; try congruence.
  - destruct a6 as [a6|[a6 a6']], b6 as [b6|[b6 b6']].
    + left. congruence.
    + right. split; congruence.
    + right. split; congruence.
    + congruence.
  - intros d' Hne. rewrite (b7 d' Hne). apply a7, Hne.
Qed.

Lemma only_trace_discovery d w w' : only_trace w w' -> discovery_frame d w w'.
Proof.
  intros (a1 & a2 & a3 & a4 & a5 & a6 & a7). repeat split; try assumption.
  - left. exact a3.
  - intros d' _. rewrite a5. reflexivity.
Qed.

Lemma found_bind {A B} d (c : M A) (k : A -> M B) :
  keeps (discovery_frame d) c -> (forall a, keeps (discovery_frame d) (k a)) ->
  keeps (discovery_frame d) (bind c k).
Proof.
  intros Hc Hk w. rewrite bind_run. specialize (Hc w).
  destruct (c w) as [w1 [a|err]]; cbn [fst] in *; [|exact Hc].
  apply (discovery_frame_trans d w w1); [exact Hc | apply Hk].
Qed.

Lemma found_try_catch {A} d (c : M A) (h : JSError -> M A) :
  keeps (discovery_frame d) c ->
  (forall err, keeps (discovery_frame d) (h err)) ->
  keeps (discovery_frame d) (try_catch c h).
Proof.
  intros Hc Hh w. unfold try_catch. specialize (Hc w).
  destruct (c w) as [w1 [a|err]]; cbn [fst] in *; [exact Hc|].
  apply (discovery_frame_trans d w w1); [exact Hc | apply Hh].
Qed.

Lemma found_ret {A} d (a : A) : keeps (discovery_frame d) (ret a).
Proof. intros w. apply discovery_frame_refl. Qed.

Lemma found_Date_now d : keeps (discovery_frame d) Date_now.
Proof. intros w. apply only_trace_discovery, only_trace_log. Qed.

Lemma found_cacheEndpoint d cache :
  domain cache = d -> keeps (discovery_frame d) (cacheEndpoint cache).
Proof.
  intros Hd w. unfold cacheEndpoint. cbv zeta. repeat split.
  - left. reflexivity.
  - intros d' Hne. cbn [fst endpoint_cache set_endpoint_cache].
    apply lookup_insert_ne. rewrite Hd. intros E. apply Hne. symmetry.
    exact E.
Qed.

Lemma found_remember d e :
  keeps (discovery_frame d)
    (await now <- Date_now ;;
     await _ <- cacheEndpoint
       {| domain := d; endpoint := e; capabilities := None;
          discovered_at := now; ttl := 86400 |} ;;
     ret (Some e)).
Proof.
  apply found_bind; [apply found_Date_now|]. intros now.
  apply found_bind; [apply found_cacheEndpoint; reflexivity|].
  intros _. apply found_ret.
Qed.

Lemma found_loadConfig d : keeps (discovery_frame d) loadConfig.
Proof.
  intros w. unfold loadConfig.
  destruct (config_file w) as [[|c]|] eqn:E; cbn [fst];
    try apply discovery_frame_refl.
  repeat split. right. split; [exact E | reflexivity].
Qed.

Lemma found_getCachedEndpoint d : keeps (discovery_frame d) (getCachedEndpoint d).
Proof.
  intros w. unfold getCachedEndpoint.
  destruct (endpoint_cache w !! d) as [row|]; [|apply discovery_frame_refl].
  unfold bind, Date_now. cbv beta iota zeta.
  destruct (_ >? _); apply only_trace_discovery, only_trace_log.
Qed.

Lemma tryFallbackDiscovery_only_trace d w :
  only_trace w (fst (tryFallbackDiscovery d w)).
Proof.
  unfold tryFallbackDiscovery. rewrite bind_run.
  destruct (tryWellKnown_frame d w) as (Hw1 & f1 & Hr1).
  destruct (tryWellKnown d w) as [w1 c1]. cbn [fst snd] in *. subst c1 w1.
  destruct f1 as [e|]; [apply only_trace_log|].
  destruct (tryHeader_frame d (log_event (EvFetch (well_known_request d)) w))
    as (Hw2 & _).
  rewrite Hw2. repeat split.
Qed.

Lemma found_discoverSCPEndpoint d :
  keeps (discovery_frame d) (discoverSCPEndpoint d).
Proof.
  unfold discoverSCPEndpoint.
  apply found_bind;
    [intros w; unfold checkTestEndpoint, bind, getTestEndpointOverride;
     cbv beta iota; destruct (match SCP_TEST_ENDPOINT w with
                              | Some e => if truthy e then Some e else None
                              | None => None
                              end); apply discovery_frame_refl|].
  intros [e|]; [apply found_ret|].
  apply found_bind; [apply found_loadConfig|]. intros config.
  destruct (default false (demo_mode config)); [apply found_ret|].
  apply found_bind; [apply found_getCachedEndpoint|].
  intros [c|]; [apply found_ret|].
  apply found_bind.
  { intros w. rewrite tryDNSDiscovery_run.
    apply only_trace_discovery, only_trace_log. }
  intros dnsEndpoint.
  destruct (truthy_string dnsEndpoint) as [e|]; [apply found_remember|].
  apply found_bind.
  { intros w. apply only_trace_discovery, tryFallbackDiscovery_only_trace. }
  intros fallbackEndpoint.
  destruct (truthy_string fallbackEndpoint) as [e|];
    [apply found_remember | apply found_ret].
Qed.

Lemma found_discoverWithCapabilities d :
  keeps (discovery_frame d) (discoverWithCapabilities d).
Proof.
  unfold discoverWithCapabilities.
  apply found_bind; [apply found_discoverSCPEndpoint|]. intros found.
  destruct (truthy_string found) as [e|]; [|apply found_ret].
  apply found_try_catch; [|intros err; apply found_ret].
  apply found_bind.
  { intros w. rewrite fetchCapabilities_run.
    apply only_trace_discovery, only_trace_log. }
  intros caps. apply found_bind; [apply found_Date_now|]. intros now.
  apply found_bind; [apply found_cacheEndpoint; reflexivity|].
  intros _. apply found_ret.
Qed.

(** X20. Discovery for a domain, with or without capabilities, never
    touches the stored authorizations or the encryption key; it writes
    no cache row but that of the domain, and it does not change an
    existing configuration file: it only creates the file, with the
    defaults, when there is none. *)
Theorem discovery_writes_only_its_cache_row d w :
  discovery_frame d w (fst (discoverSCPEndpoint d w))
  /\ discovery_frame d w (fst (discoverWithCapabilities d w)).
Proof.
  split; [apply found_discoverSCPEndpoint | apply found_discoverWithCapabilities].
Qed.

Lemma completeAuthorizationFlow_only_trace e email d requested cap w :
  only_trace w (fst (completeAuthorizationFlow e email d requested cap w)).
Proof.
  unfold completeAuthorizationFlow. rewrite bind_run.
  pose proof (initiateAuthorization_frame e email d requested w) as Hinit.
  destruct (initiateAuthorization e email d requested w) as [w1 [flow|err]];
    cbn [fst] in Hinit; subst w1; [|repeat split].
  rewrite bind_run. unfold pollAuthorization.
  match goal with
  | |- context [poll_loop ?n ?a ?b ?c ?x] =>
      destruct (poll_loop_bounded n a b c x) as [Hpoll _];
      destruct (poll_loop n a b c x) as [w2 [code|err]]
  end; cbn [fst] in Hpoll; [|exact Hpoll].
  rewrite bind_run.
  pose proof (exchangeCodeForTokens_frame e code (codeVerifier flow) w2)
    as Hex.
  destruct (exchangeCodeForTokens e code (codeVerifier flow) w2)
    as [w3 [tok|err]]; cbn [fst] in Hex; subst w3; norm; cbn [fst];
    (eapply only_trace_trans; [exact Hpoll | apply only_trace_log]).
Qed.

Lemma encryptToken_only_trace token w :
  only_trace w (fst (encryptToken token w)).
Proof.
  unfold encryptToken.
  destruct (masterKeyCache w) as [key|]; [|apply only_trace_refl].
  rewrite bind_run. unfold randomBytes. rewrite bind_run. unfold check_key.
  destruct (bool_decide (length key = KEY_LENGTH)); norm;
    apply only_trace_log.
Qed.

(** X21. An authorization that throws, at whatever step (discovery,
    scope check, initiation, polling, code exchange or encryption),
    has stored nothing: the table of authorizations and the encryption
    key are as they were before the call. *)
Theorem failed_authorize_stores_nothing d email requested w err :
  snd (handleAuthorize d email requested w) = Throw err ->
  let w' := fst (handleAuthorize d email requested w) in
  merchant_authorizations w' = merchant_authorizations w
  /\ encryption_keys w' = encryption_keys w
  /\ masterKeyCache w' = masterKeyCache w.
Proof.
  assert (forall existing w',
             authorize_flow d email requested existing w = (w', Throw err) ->
             merchant_authorizations w' = merchant_authorizations w
             /\ encryption_keys w' = encryption_keys w
             /\ masterKeyCache w' = masterKeyCache w) as Hflow.
  { intros existing w'. unfold authorize_flow. rewrite bind_run.
    pose proof (found_discoverWithCapabilities d w)
      as (_ & _ & Hm1 & He1 & Hk1 & _).
    destruct (discoverWithCapabilities d w) as [w1 [[[e caps]|]|err1]];
      cbn [fst] in *;
      [| intros H; injection H as <- _; repeat split; assumption
       | intros H; injection H as <- _; repeat split; assumption].
    cbv beta iota zeta.
    destruct (negb _);
      [intros H; injection H as <- _; repeat split; assumption|].
    rewrite bind_run.
    pose proof (completeAuthorizationFlow_only_trace e email d requested
                  None w1) as (_ & _ & _ & Hm2 & _ & He2 & Hk2).
    destruct (completeAuthorizationFlow e email d requested None w1)
      as [w2 [flow|err2]]; cbn [fst] in *;
      [|intros H; injection H as <- _; repeat split; congruence].
    rewrite bind_run. unfold Date_now at 1. cbv beta iota.
    set (w3 := log_event EvNow w2). rewrite bind_run.
    pose proof (encryptToken_only_trace (access_token (fst flow)) w3)
      as (_ & _ & _ & Hm4 & _ & He4 & Hk4).
    destruct (encryptToken (access_token (fst flow)) w3) as [w4 [a|err4]];
      cbn [fst] in *;
      [|intros H; injection H as <- _; unfold w3 in *;
        cbn [merchant_authorizations encryption_keys masterKeyCache
             log_event] in *;
        repeat split; congruence].
    rewrite bind_run.
    pose proof (encryptToken_only_trace (refresh_token (fst flow)) w4)
      as (_ & _ & _ & Hm5 & _ & He5 & Hk5).
    destruct (encryptToken (refresh_token (fst flow)) w4) as [w5 [r|err5]];
      cbn [fst] in *;
      [|intros H; injection H as <- _; unfold w3 in *;
        cbn [merchant_authorizations encryption_keys masterKeyCache
             log_event] in *;
        repeat split; congruence].
    rewrite bind_run. unfold storeAuthorization. cbv beta iota zeta.
    norm. discriminate. }
  destruct (handleAuthorize d email requested w) as [w' c] eqn:Hrun.
  cbn [fst snd]. intros ->. revert Hrun. unfold handleAuthorize.
  destruct (is_example_email email); [discriminate|].
  rewrite bind_run, getAuthorization_run.
  destruct (merchant_authorizations w !! d) as [e|];
    cbn [fmap option_fmap option_map]; [|apply Hflow].
  destruct (_ && _); [discriminate|].
  destruct (negb _); [discriminate|]. apply Hflow.
Qed.


End Program.

(* ================================================================== *)
(** * A model of the primitives and sample worlds

    The cipher below is not AES; it is the smallest function pair that
    meets the contract assumed above, which shows the contract can be
    met and lets the handlers run on concrete worlds. *)

#[global] Instance byte_eq_decision : EqDecision byte := Byte.byte_eq_dec.

Definition model_encrypt (key iv plain : list byte) : list byte * list byte :=
  (reverse plain, key ++ iv ++ reverse plain).

Definition model_decrypt (key iv data tag : list byte) : option (list byte) :=
  if bool_decide (tag = key ++ iv ++ data) then Some (reverse data) else None.

Definition model_sha256 (bs : list byte) : list byte := bs.

Definition model_base64url (bs : list byte) : jsstring := hex_encode bs.

Definition sample_key : list byte := replicate 32 "k"%byte.

Definition sample_iv : list byte := replicate 16 "n"%byte.

Definition shop : jsstring := js "shop.test".

Definition shop_endpoint : jsstring := js "https://shop.test/scp/v1".

Definition ENOTFOUND : JSError :=
  {| message := js "queryTxt ENOTFOUND"; code := Some (js "ENOTFOUND") |}.

(** An outside where DNS knows nothing and every request is answered
    by [answer]; the clock starts at [1700000000000] and advances by one
    millisecond per event. *)
Definition outside_answering (answer : list Event -> Request -> FetchOutcome)
  : Outside :=
  {| server := answer;
     resolver := fun _ _ => DnsFailure ENOTFOUND;
     clock := fun sofar => Z.of_nat (length sofar) + 1700000000000;
     entropy := fun _ n => replicate n "r"%byte |}.

Definition unreachable : list Event -> Request -> FetchOutcome :=
  fun _ _ => Rejected (Error (js "fetch failed")).

Definition new_tokens : TokenResponse :=
  {| access_token := js "new-access";
     refresh_token := js "new-refresh";
     token_type := js "Bearer";
     expires_in := 3600;
     scope := js "orders loyalty";
     token_customer_id := js "cust-1";
     token_email := js "alice@shop.test" |}.

Definition granting : list Event -> Request -> FetchOutcome :=
  fun _ _ =>
    Resolved {| status := 200; statusText := js "OK"; headers := [];
                payload := TokenDoc new_tokens |}.

Definition refusing : list Event -> Request -> FetchOutcome :=
  fun _ _ =>
    Resolved {| status := 401; statusText := js "Unauthorized";
                headers := [];
                payload := ErrorDoc (Some (js "invalid_grant")) |}.

(** A record for [shop] whose tokens expire one minute after the start
    of the clock. *)
Definition stored_record (email : jsstring) : MerchantAuthorization :=
  {| merchant_domain := shop;
     scp_endpoint := shop_endpoint;
     customer_id := js "cust-1";
     customer_email := email;
     access_token_encrypted :=
       envelope_of model_encrypt sample_key sample_iv (js "old-access");
     refresh_token_encrypted :=
       envelope_of model_encrypt sample_key sample_iv (js "old-refresh");
     expires_at := 1700000060000;
     scopes := [js "orders"; js "loyalty"];
     created_at := 1690000000000;
     updated_at := 1690000000000 |}.

(** A fresh installation: no file, no row, no key. *)
Definition fresh_world (o : Outside) : World :=
  {| outside := o; trace := []; SCP_TEST_ENDPOINT := None;
     config_file := None; merchant_authorizations := ∅;
     endpoint_cache := ∅; encryption_keys := None;
     masterKeyCache := None |}.

(** A running process with the key cached and one record for [shop]. *)
Definition world_with_record (o : Outside) (email : jsstring) : World :=
  {| outside := o; trace := []; SCP_TEST_ENDPOINT := None;
     config_file := None;
     merchant_authorizations := {[ shop := stored_record email ]};
     endpoint_cache := ∅;
     encryption_keys :=
       Some {| salt_hex := []; key_hex := hex_encode sample_key;
               key_created_at := 1690000000000 |};
     masterKeyCache := Some sample_key |}.

Definition alice : jsstring := js "alice@shop.test".

Definition keyed_world : World :=
  world_with_record (outside_answering unreachable) alice.


Definition refusing_world : World :=
  world_with_record (outside_answering refusing) alice.

(** A record whose stored email is an example address, as a server may
    report one in its token response. *)
Definition example_address : jsstring := js "a@example.com".

Definition example_world : World :=
  world_with_record (outside_answering unreachable) example_address.

Definition poll_answer (p : PollResponse) : Response :=
  {| status := 200; statusText := js "OK"; headers := [];
     payload := PollDoc p |}.

Definition pending_answer : PollResponse :=
  {| poll_status := js "pending"; poll_code := None;
     poll_expires_in := None; poll_reason := None; poll_error := None |}.

Definition authorized_answer : PollResponse :=
  {| poll_status := js "authorized"; poll_code := Some (js "code-K");
     poll_expires_in := None; poll_reason := None; poll_error := None |}.

(** A server that answers the first two polls with pending and every
    later one with authorized. *)
Definition approving_later : list Event -> Request -> FetchOutcome :=
  fun sofar _ =>
    Resolved (poll_answer
                (if (length (List.filter is_fetch sofar) <? 2)%nat
                 then pending_answer else authorized_answer)).

Definition polling_world : World :=
  fresh_world (outside_answering approving_later).

(** A server that never answers anything but pending. *)
Definition never_approving : list Event -> Request -> FetchOutcome :=
  fun _ _ => Resolved (poll_answer pending_answer).

(** An outside whose DNS holds the TXT record of the specification. *)
Definition outside_with_txt : Outside :=
  {| server := unreachable;
     resolver := fun _ _ =>
       DnsRecords [[js "v=scp1 endpoint=https://x.example/v1"]];
     clock := fun sofar => Z.of_nat (length sofar) + 1700000000000;
     entropy := fun _ n => replicate n "r"%byte |}.

Definition demo_off : ConfigObject :=
  {| cfg_dns_resolver := None; cfg_dns_cache_ttl := None;
     cfg_poll_interval := None; cfg_max_poll_attempts := None;
     cfg_token_refresh_threshold := None; cfg_request_timeout := None;
     cfg_demo_mode := Some false; cfg_demo_endpoint := None |}.

(** A process whose configuration file switches demo mode off. *)
Definition real_discovery_world : World :=
  {| outside := outside_with_txt; trace := []; SCP_TEST_ENDPOINT := None;
     config_file := Some (Parsed demo_off);
     merchant_authorizations := ∅; endpoint_cache := ∅;
     encryption_keys := None; masterKeyCache := None |}.

(** A merchant that answers the first request with an authorization
    request, the second with an approval and every later one with
    tokens. *)
Definition merchant : list Event -> Request -> FetchOutcome :=
  fun sofar _ =>
    Resolved
      match length (List.filter is_fetch sofar) with
      | 0%nat =>
          {| status := 200; statusText := js "OK"; headers := [];
             payload := AuthorizationDoc
               {| auth_request_id := js "req-1"; email_sent := true;
                  auth_expires_in := 600; auth_poll_interval := 2 |} |}
      | 1%nat => poll_answer authorized_answer
      | _ =>
          {| status := 200; statusText := js "OK"; headers := [];
             payload := TokenDoc new_tokens |}
      end.

Definition merchant_world : World := fresh_world (outside_answering merchant).

Definition SERVFAIL : JSError :=
  {| message := js "queryTxt ESERVFAIL"; code := Some (js "ESERVFAIL") |}.

(** A process with demo mode off whose DNS resolver is broken. *)
Definition dns_down_world : World :=
  {| outside :=
       {| server := unreachable;
          resolver := fun _ _ => DnsFailure SERVFAIL;
          clock := fun sofar => Z.of_nat (length sofar) + 1700000000000;
          entropy := fun _ n => replicate n "r"%byte |};
     trace := []; SCP_TEST_ENDPOINT := None;
     config_file := Some (Parsed demo_off);
     merchant_authorizations := ∅; endpoint_cache := ∅;
     encryption_keys := None; masterKeyCache := None |}.

Definition sample_capabilities : SCPCapabilities :=
  {| version := js "1.0"; protocol_version := js "2025-01";
     scopes_supported := Some [js "orders"; js "loyalty"];
     authorization_endpoint := js "https://shop.test/scp/v1/authorize";
     token_endpoint := js "https://shop.test/scp/v1/token";
     revocation_endpoint := js "https://shop.test/scp/v1/revoke";
     grant_types_supported := [js "authorization_code"];
     code_challenge_methods_supported := [js "S256"];
     token_endpoint_auth_methods_supported := [js "none"];
     magic_link_supported := true; webhook_support := false;
     rate_limit := None |}.

Definition describing : list Event -> Request -> FetchOutcome :=
  fun _ _ =>
    Resolved {| status := 200; statusText := js "OK"; headers := [];
                payload := CapabilitiesDoc sample_capabilities |}.

(** A process started with [SCP_TEST_ENDPOINT] set. *)
Definition override_world : World :=
  {| outside := outside_answering describing; trace := [];
     SCP_TEST_ENDPOINT := Some shop_endpoint;
     config_file := None; merchant_authorizations := ∅;
     endpoint_cache := ∅; encryption_keys := None;
     masterKeyCache := None |}.



(** A later grant for [shop], to another customer. *)
Definition renewed_record : MerchantAuthorization :=
  {| merchant_domain := shop;
     scp_endpoint := shop_endpoint;
     customer_id := js "cust-2";
     customer_email := js "bob@shop.test";
     access_token_encrypted :=
       envelope_of model_encrypt sample_key sample_iv (js "bob-access");
     refresh_token_encrypted :=
       envelope_of model_encrypt sample_key sample_iv (js "bob-refresh");
     expires_at := 1700003600000;
     scopes := [js "orders"];
     created_at := 1700000000000;
     updated_at := 1700000000000 |}.

(** The record of [shop] with an hour to go before its tokens expire. *)
Definition lasting_record : MerchantAuthorization :=
  with_tokens (access_token_encrypted (stored_record alice))
              (refresh_token_encrypted (stored_record alice))
              1700003600000 1690000000000 (stored_record alice).

Definition lasting_world : World :=
  set_merchant_authorizations {[ shop := lasting_record ]} keyed_world.

Lemma model_decrypt_encrypt key iv plain :
  length key = KEY_LENGTH -> length iv = IV_LENGTH ->
  model_decrypt key iv (fst (model_encrypt key iv plain))
                (snd (model_encrypt key iv plain)) = Some plain.
Proof.
  intros _ _. unfold model_decrypt, model_encrypt. cbn [fst snd].
  rewrite bool_decide_eq_true_2 by reflexivity.
  rewrite reverse_involutive. reflexivity.
Qed.

Lemma model_tag_verified key iv plain tag :
  length key = KEY_LENGTH -> length iv = IV_LENGTH ->
  length tag = length (snd (model_encrypt key iv plain)) ->
  tag <> snd (model_encrypt key iv plain) ->
  model_decrypt key iv (fst (model_encrypt key iv plain)) tag = None.
Proof.
  intros _ _ _ Hne. unfold model_decrypt, model_encrypt in *.
  cbn [fst snd] in *. rewrite bool_decide_eq_false_2 by assumption.
  reflexivity.
Qed.

Lemma model_data_verified key iv plain i :
  length key = KEY_LENGTH -> length iv = IV_LENGTH ->
  (i < 8 * length (fst (model_encrypt key iv plain)))%nat ->
  model_decrypt key iv (flip_bit i (fst (model_encrypt key iv plain)))
                (snd (model_encrypt key iv plain)) = None.
Proof.
  intros _ _ Hi. unfold model_decrypt, model_encrypt in *.
  cbn [fst snd] in *. rewrite bool_decide_eq_false_2; [reflexivity|].
  intros E. apply app_inv_head, app_inv_head in E.
  symmetry in E. revert E. apply flip_bit_neq. exact Hi.
Qed.


(** ** Runs on the sample worlds *)

Example js_literal : js "v=scp1" = [118; 61; 115; 99; 112; 49].
Proof. reflexivity. Qed.

Example show_status : show_Z 401 = js "401".
Proof. reflexivity. Qed.

Example split_scope :
  split_on 32 (js "orders loyalty") = [js "orders"; js "loyalty"].
Proof. reflexivity. Qed.

Example join_scopes :
  join (js ", ") [js "orders"; js "loyalty"] = js "orders, loyalty".
Proof. reflexivity. Qed.

Example set_drops_duplicates :
  js_set [js "a"; js "b"; js "a"] = [js "a"; js "b"].
Proof. vm_compute. reflexivity. Qed.

Lemma dns_txt_record_acceptance_witness :
  tryDNSDiscovery (js "x.example") real_discovery_world
  = (log_event (EvResolveTxt (DNS_QUERY_PREFIX ++ js "x.example"))
       real_discovery_world,
     Return (Some (js "https://x.example/v1"))).
Proof.
  apply (proj1 dns_txt_record_acceptance). reflexivity.
Defined.

Example discovery_reaches_dns :
  exists w',
    discoverSCPEndpoint (js "x.example") real_discovery_world
    = (w', Return (Some (js "https://x.example/v1")))
    /\ trace w' = [EvResolveTxt (js "_scp._tcp.x.example"); EvNow]
    /\ endpoint <$> endpoint_cache w' !! js "x.example"
       = Some (js "https://x.example/v1").
Proof. eexists. split; [reflexivity|]. split; vm_compute; reflexivity. Qed.


Lemma default_configuration_is_demo_witness :
  discoverSCPEndpoint shop (fresh_world (outside_answering unreachable))
  = (set_config_file (Some (Parsed (config_object DEFAULT_CONFIG)))
       (fresh_world (outside_answering unreachable)),
     Return (Some (js "https://demo.shoppercontextprotocol.io/v1"))).
Proof.
  apply (proj1 (default_configuration_is_demo shop
                  (fresh_world (outside_answering unreachable)) eq_refl)).
  reflexivity.
Defined.

Lemma poll_loop_behaviour_witness :
  exists w',
    pollAuthorization shop_endpoint (js "req-1") None (Some 2) shop
                      polling_world
    = (w', Return (js "code-K"))
    /\ trace w'
       = [EvFetch (poll_request shop_endpoint (js "req-1")); EvTimeout 2000;
          EvFetch (poll_request shop_endpoint (js "req-1")); EvTimeout 2000;
          EvFetch (poll_request shop_endpoint (js "req-1"))].
Proof.
  apply (proj1 (poll_loop_behaviour shop_endpoint (js "req-1") shop
                  polling_world)
           None (Some 2) pending_answer pending_answer authorized_answer
           (js "code-K")).
  - exists (poll_answer pending_answer).
    repeat split. exact (tells_poll pending_answer).
  - reflexivity.
  - exists (poll_answer pending_answer).
    repeat split. exact (tells_poll pending_answer).
  - reflexivity.
  - exists (poll_answer authorized_answer).
    repeat split. exact (tells_poll authorized_answer).
  - reflexivity.
  - reflexivity.
  - discriminate.
  - vm_compute. discriminate.
Defined.

(** A 2xx answer that is JSON of another shape counts as pending: a
    server that answers every poll with a token document is polled up
    to the cap. *)
Example answer_without_status_is_pending :
  exists w',
    pollAuthorization shop_endpoint (js "req-1") (Some 2) (Some 2) shop
                      (fresh_world (outside_answering granting))
    = (w', Throw (Error (js
         "Authorization timeout: maximum poll attempts reached")))
    /\ trace w'
       = [EvFetch (poll_request shop_endpoint (js "req-1")); EvTimeout 2000;
          EvFetch (poll_request shop_endpoint (js "req-1")); EvTimeout 2000].
Proof. eexists. split; [reflexivity | vm_compute; reflexivity]. Qed.

Example poll_cap_of_three_times_out :
  exists w',
    pollAuthorization shop_endpoint (js "req-1") (Some 3) (Some 2) shop
                      (fresh_world (outside_answering never_approving))
    = (w', Throw (Error (js
         "Authorization timeout: maximum poll attempts reached")))
    /\ length (List.filter is_fetch (trace w')) = 3%nat.
Proof. eexists. split; [reflexivity | vm_compute; reflexivity]. Qed.

Lemma encrypt_decrypt_roundtrip_witness :
  decryptToken model_decrypt
    (envelope_of model_encrypt sample_key (fresh_iv keyed_world)
                 (js "tok_live_1"))
    (log_event (EvRandomBytes IV_LENGTH) keyed_world)
  = (log_event (EvRandomBytes IV_LENGTH) keyed_world,
     Return (js "tok_live_1")).
Proof.
  apply (proj1 (proj2 (proj2 (proj2
           (proj2 (encrypt_decrypt_roundtrip model_encrypt model_decrypt
                     model_decrypt_encrypt model_tag_verified
                     model_data_verified (js "tok_live_1") keyed_world
                     sample_key eq_refl) eq_refl))))).
  vm_compute. reflexivity.
Defined.

(** The case of a hex letter is not part of the tag: the envelope of
    the witness with the first letter of its tag text in upper case
    opens as before. *)
Example tag_text_in_upper_case_opens :
  let sealed :=
    model_encrypt sample_key (fresh_iv keyed_world)
                  (utf8_encode (js "tok_live_1")) in
  hex_encode (snd sealed) <> js "6B" ++ drop 2 (hex_encode (snd sealed))
  /\ decryptToken model_decrypt
       (stringify_envelope (hex_encode (fresh_iv keyed_world))
                           (hex_encode (fst sealed))
                           (js "6B" ++ drop 2 (hex_encode (snd sealed))))
       (log_event (EvRandomBytes IV_LENGTH) keyed_world)
     = (log_event (EvRandomBytes IV_LENGTH) keyed_world,
        Return (js "tok_live_1")).
Proof.
  split; [vm_compute; discriminate | vm_compute; reflexivity].
Qed.

(** C3, as stated, fails: a token that is one high surrogate is
    encrypted as U+FFFD and comes back as U+FFFD. *)
Lemma lone_surrogate_token_changes :
  encryptToken model_encrypt [0xD800] keyed_world
  = (log_event (EvRandomBytes IV_LENGTH) keyed_world,
     Return (envelope_of model_encrypt sample_key (fresh_iv keyed_world)
                         [0xD800]))
  /\ decryptToken model_decrypt
       (envelope_of model_encrypt sample_key (fresh_iv keyed_world) [0xD800])
       (log_event (EvRandomBytes IV_LENGTH) keyed_world)
     = (log_event (EvRandomBytes IV_LENGTH) keyed_world, Return [0xFFFD])
  /\ snd (decryptToken model_decrypt
            (envelope_of model_encrypt sample_key (fresh_iv keyed_world)
                         [0xD800])
            (log_event (EvRandomBytes IV_LENGTH) keyed_world))
     <> Return [0xD800].
Proof.
  split; [vm_compute; reflexivity|].
  split; [vm_compute; reflexivity|].
  vm_compute. discriminate.
Qed.


Example stored_token_returned_while_valid :
  getValidAccessToken model_encrypt model_decrypt shop
    (world_with_record
       {| server := unreachable;
          resolver := fun _ _ => DnsFailure ENOTFOUND;
          clock := fun _ => 1699999000000;
          entropy := fun _ _ => [] |} alice)
  = (log_event EvNow
       (world_with_record
          {| server := unreachable;
             resolver := fun _ _ => DnsFailure ENOTFOUND;
             clock := fun _ => 1699999000000;
             entropy := fun _ _ => [] |} alice),
     Return (js "old-access")).
Proof. vm_compute. reflexivity. Qed.

Lemma refresh_failure_is_fatal_witness :
  getValidAccessToken model_encrypt model_decrypt shop refusing_world
  = (log_event (EvFetch (refresh_request shop_endpoint (js "old-refresh")))
       (log_event EvNow refusing_world),
     Throw (Error (js
       "Failed to refresh token for shop.test: invalid_grant"))).
Proof.
  apply (refresh_failure_is_fatal model_encrypt model_decrypt shop
           refusing_world (stored_record alice) (js "old-refresh")
           (log_event
              (EvFetch (refresh_request shop_endpoint (js "old-refresh")))
              (log_event EvNow refusing_world))
           (Error (js "invalid_grant")) eq_refl).
  - vm_compute. reflexivity.
  - vm_compute. reflexivity.
  - vm_compute. reflexivity.
Defined.

(** C8, as stated, fails: the error the caller gets is not the error
    the refresh call threw. *)
Lemma refresh_failure_is_rewritten :
  snd (refreshAccessToken shop_endpoint (js "old-refresh")
         (log_event EvNow refusing_world))
  = Throw (Error (js "invalid_grant"))
  /\ snd (getValidAccessToken model_encrypt model_decrypt shop
            refusing_world)
     = Throw (Error (js
         "Failed to refresh token for shop.test: invalid_grant"))
  /\ thrown (snd (getValidAccessToken model_encrypt model_decrypt shop
                    refusing_world))
     <> thrown (snd (refreshAccessToken shop_endpoint (js "old-refresh")
                       (log_event EvNow refusing_world))).
Proof.
  split; [vm_compute; reflexivity|].
  split; [vm_compute; reflexivity|].
  vm_compute. discriminate.
Qed.

Lemma reauthorize_same_identity_witness :
  handleAuthorize model_encrypt model_sha256 model_base64url shop alice
                  [js "loyalty"; js "orders"; js "loyalty"] keyed_world
  = (keyed_world,
     Return {| text := already_authorized_text shop (stored_record alice) |}).
Proof.
  apply (reauthorize_same_identity model_encrypt model_sha256
           model_base64url shop alice
           [js "loyalty"; js "orders"; js "loyalty"] keyed_world
           (stored_record alice) eq_refl eq_refl).
  - intros s. cbn [scopes stored_record]. rewrite !elem_of_cons. tauto.
  - vm_compute. reflexivity.
Defined.

(** C5, as stated, fails: with a stored example address, the same
    email and the same scopes do not yield the already-authorized
    result. *)
Lemma example_address_is_not_already_authorized :
  merchant_authorizations example_world !! shop
  = Some (stored_record example_address)
  /\ customer_email (stored_record example_address) = example_address
  /\ handleAuthorize model_encrypt model_sha256 model_base64url shop
       example_address (scopes (stored_record example_address))
       example_world
     = (example_world,
        Return {| text := invalid_email_text shop example_address |})
  /\ snd (handleAuthorize model_encrypt model_sha256 model_base64url shop
            example_address (scopes (stored_record example_address))
            example_world)
     <> Return {| text := already_authorized_text shop
                            (stored_record example_address) |}.
Proof.
  split; [reflexivity|]. split; [reflexivity|].
  split; [vm_compute; reflexivity|].
  vm_compute. discriminate.
Qed.

Lemma reauthorize_other_identity_witness :
  handleAuthorize model_encrypt model_sha256 model_base64url shop
                  (js "bob@shop.test") [js "orders"] keyed_world
  = (keyed_world,
     Return {| text := revoke_first_text shop (js "bob@shop.test")
                         (stored_record alice) |}).
Proof.
  apply (reauthorize_other_identity model_encrypt model_sha256
           model_base64url shop (js "bob@shop.test") [js "orders"]
           keyed_world (stored_record alice) eq_refl).
  - vm_compute. discriminate.
  - vm_compute. reflexivity.
Defined.

(** C6, as stated, fails: a different email that is an example address
    gets the invalid-email text, not the identity conflict. *)
Lemma example_address_is_not_an_identity_conflict :
  merchant_authorizations keyed_world !! shop = Some (stored_record alice)
  /\ customer_email (stored_record alice) <> js "bob@example.com"
  /\ handleAuthorize model_encrypt model_sha256 model_base64url shop
       (js "bob@example.com") [js "orders"] keyed_world
     = (keyed_world,
        Return {| text := invalid_email_text shop (js "bob@example.com") |})
  /\ snd (handleAuthorize model_encrypt model_sha256 model_base64url shop
            (js "bob@example.com") [js "orders"] keyed_world)
     <> Return {| text := revoke_first_text shop (js "bob@example.com")
                            (stored_record alice) |}.
Proof.
  split; [reflexivity|]. split; [vm_compute; discriminate|].
  split; [vm_compute; reflexivity|].
  vm_compute. discriminate.
Qed.

Lemma revoke_deletes_local_record_witness :
  exists w',
    handleRevokeAuthorization model_encrypt model_decrypt shop keyed_world
    = (w', Return {| text := [0x2713] ++ js " Revoked authorization for "
                               ++ shop |})
    /\ merchant_authorizations w' !! shop = None.
Proof.
  apply (proj2 (revoke_deletes_local_record model_encrypt model_decrypt
                  shop keyed_world) (stored_record alice)).
  reflexivity.
Defined.

Example revoke_survives_unreachable_server :
  exists w',
    handleRevokeAuthorization model_encrypt model_decrypt shop keyed_world
    = (w', Return {| text := [0x2713] ++ js " Revoked authorization for "
                               ++ shop |})
    /\ merchant_authorizations w' = ∅
    /\ trace w'
       = [EvNow; EvFetch (refresh_request shop_endpoint (js "old-refresh"))].
Proof. eexists. split; [reflexivity|]. split; vm_compute; reflexivity. Qed.

Example revoke_without_record_throws :
  handleRevokeAuthorization model_encrypt model_decrypt shop
    (fresh_world (outside_answering unreachable))
  = (fresh_world (outside_answering unreachable),
     Throw (Error (js "No authorization found for shop.test"))).
Proof. vm_compute. reflexivity. Qed.

(** ** Further runs *)

Lemma authorization_flow_binds_verifier_witness :
  exists rid ms polled code,
    trace (fst (completeAuthorizationFlow model_sha256 model_base64url
                  shop_endpoint alice shop [js "orders"] None
                  merchant_world))
    = [EvRandomBytes 32; EvRandomBytes 32;
       EvFetch (init_request model_sha256 model_base64url shop_endpoint
                  alice shop [js "orders"]
                  (drawn_verifier model_base64url merchant_world)
                  (drawn_state model_base64url merchant_world))]
      ++ polled
      ++ [EvFetch (exchange_request shop_endpoint code
                     (drawn_verifier model_base64url merchant_world))]
    /\ Forall (poll_event (poll_request shop_endpoint rid) ms) polled.
Proof.
  destruct (authorization_flow_binds_verifier model_sha256 model_base64url
              shop_endpoint alice shop [js "orders"] None merchant_world
              _ _ _ eq_refl)
    as (rid & ms & polled & code & Htrace & Hpolls & _).
  exists rid, ms, polled, code. split; [exact Htrace | exact Hpolls].
Defined.

Lemma discovery_reuses_dns_result_witness :
  exists w3,
    discoverSCPEndpoint (js "x.example") real_discovery_world
    = (w3, Return (Some (js "https://x.example/v1")))
    /\ discoverSCPEndpoint (js "x.example") w3
       = (log_event EvNow w3, Return (Some (js "https://x.example/v1"))).
Proof.
  pose proof (discovery_reuses_dns_result (js "x.example")
                real_discovery_world real_discovery_world
                (log_event
                   (EvResolveTxt (DNS_QUERY_PREFIX ++ js "x.example"))
                   real_discovery_world)
                (js "https://x.example/v1") eq_refl
                (ex_intro _ demo_off (conj eq_refl eq_refl))
                eq_refl eq_refl) as H.
  cbv zeta in H. destruct H as [Hfirst Hagain].
  eexists. split; [exact Hfirst|]. apply Hagain. vm_compute. discriminate.
Defined.

Lemma dns_failure_ends_discovery_witness :
  discoverSCPEndpoint (js "x.example") dns_down_world
  = (log_event (EvResolveTxt (DNS_QUERY_PREFIX ++ js "x.example"))
       dns_down_world,
     Throw SERVFAIL).
Proof.
  apply (proj1 (dns_failure_ends_discovery (js "x.example") dns_down_world
                  dns_down_world SERVFAIL eq_refl
                  (ex_intro _ demo_off (conj eq_refl eq_refl))
                  eq_refl eq_refl)).
  reflexivity.
Defined.


Lemma pollAuthorization_bounded_witness :
  pollAuthorization shop_endpoint (js "req-1") (Some 0) None shop
                    polling_world
  = (polling_world,
     Throw (Error (js
       "Authorization timeout: maximum poll attempts reached"))).
Proof.
  apply (proj2 (proj2 (pollAuthorization_bounded shop_endpoint (js "req-1")
                         (Some 0) None shop polling_world))).
  reflexivity.
Defined.

Lemma poll_loop_failures_witness :
  poll_loop 1 shop_endpoint (js "req-1") 2 refusing_world
  = (log_event (EvFetch (poll_request shop_endpoint (js "req-1")))
       refusing_world,
     Throw (Error (js "Poll failed: 401 Unauthorized"))).
Proof.
  apply (proj1 (proj2 (poll_loop_failures 0 shop_endpoint (js "req-1") 2
                         refusing_world))
           {| status := 401; statusText := js "Unauthorized";
              headers := [];
              payload := ErrorDoc (Some (js "invalid_grant")) |});
    reflexivity.
Defined.

Lemma token_endpoint_failures_witness :
  snd (refreshAccessToken shop_endpoint (js "old-refresh") refusing_world)
  = Throw (Error (js "invalid_grant")).
Proof.
  apply (proj2 (proj2 (proj2 (proj2 (proj2
           (token_endpoint_failures shop_endpoint (js "code-K")
              (js "verifier") (js "old-refresh") refusing_world)))))
           {| status := 401; statusText := js "Unauthorized";
              headers := [];
              payload := ErrorDoc (Some (js "invalid_grant")) |});
    reflexivity.
Defined.

Lemma storeAuthorization_upsert_witness :
  getAuthorization shop (fst (storeAuthorization renewed_record keyed_world))
  = (fst (storeAuthorization renewed_record keyed_world),
     Return (Some (with_created_at 1690000000000 renewed_record)))
  /\ customer_email (with_created_at 1690000000000 renewed_record)
     = js "bob@shop.test"
  /\ created_at renewed_record = 1700000000000.
Proof.
  split; [|split; reflexivity].
  apply (storeAuthorization_upsert renewed_record keyed_world).
  repeat split; try (vm_compute; reflexivity).
  repeat constructor.
Defined.

Lemma updateAuthorizationTokens_in_place_witness :
  exists row,
    merchant_authorizations
      (fst (updateAuthorizationTokens shop (js "a") (js "r") 1700000900000
              keyed_world)) !! shop = Some row
    /\ access_token_encrypted row = js "a"
    /\ customer_email row = alice
    /\ created_at row = 1690000000000.
Proof.
  destruct (proj1 (proj2 (proj2 (updateAuthorizationTokens_in_place shop
                                   (js "a") (js "r") 1700000900000
                                   keyed_world)))
              (stored_record alice) eq_refl)
    as (row & Hrow & Ha & _ & _ & _ & _ & _ & He & _ & Hc).
  exists row. repeat split; assumption.
Defined.


Lemma master_key_survives_restart_witness :
  exists key,
    masterKeyCache (fst (initEncryption
                           (fresh_world (outside_answering unreachable))))
    = Some key
    /\ initEncryption
         (set_masterKeyCache None
            (fst (initEncryption
                    (fresh_world (outside_answering unreachable)))))
       = (set_masterKeyCache (Some key)
            (set_masterKeyCache None
               (fst (initEncryption
                       (fresh_world (outside_answering unreachable))))),
          Return tt).
Proof.
  destruct (master_key_survives_restart model_encrypt model_decrypt
              model_decrypt_encrypt
              (fresh_world (outside_answering unreachable))
              (set_masterKeyCache None
                 (fst (initEncryption
                         (fresh_world (outside_answering unreachable)))))
              eq_refl eq_refl eq_refl eq_refl)
    as (key & Hk & _ & _ & _ & Hreload & _).
  exists key. split; [exact Hk | exact Hreload].
Defined.

Lemma testEncryption_verdict_witness :
  snd (testEncryption model_encrypt model_decrypt
         (fresh_world (outside_answering unreachable)))
  = Return true.
Proof.
  destruct (testEncryption_verdict model_encrypt model_decrypt
              model_decrypt_encrypt
              (fresh_world (outside_answering unreachable)))
    as (w1 & key & _ & _ & Hfresh).
  apply Hfresh; reflexivity.
Defined.

Lemma scopes_match_iff_same_set_witness :
  scopes_match [js "orders"; js "loyalty"]
               [js "loyalty"; js "orders"; js "loyalty"] = true.
Proof.
  apply (proj2 (scopes_match_iff_same_set [js "orders"; js "loyalty"]
                  [js "loyalty"; js "orders"; js "loyalty"])).
  intros s. rewrite !elem_of_cons. tauto.
Defined.

Lemma unsupported_scopes_rejected_witness :
  handleAuthorize model_encrypt model_sha256 model_base64url shop alice
                  [js "orders"; js "payments"] override_world
  = (fst (discoverWithCapabilities shop override_world),
     Throw (Error (js "Unsupported scopes: payments"))).
Proof.
  apply (proj2 (proj2 (unsupported_scopes_rejected model_encrypt model_sha256
                         model_base64url shop alice
                         [js "orders"; js "payments"] None override_world
                         (fst (discoverWithCapabilities shop override_world))
                         shop_endpoint sample_capabilities
                         [js "orders"; js "loyalty"] (js "payments")
                         eq_refl eq_refl
                         ltac:(rewrite !elem_of_cons; tauto)
                         ltac:(rewrite !elem_of_cons, elem_of_nil;
                               intros [H|[H|[]]]; vm_compute in H;
                               discriminate H))));
    reflexivity.
Defined.


Lemma saved_config_loads_back_witness :
  loadConfig (fst (saveConfig DEFAULT_CONFIG
                     (fresh_world (outside_answering unreachable))))
  = (fst (saveConfig DEFAULT_CONFIG
            (fresh_world (outside_answering unreachable))),
     Return DEFAULT_CONFIG).
Proof.
  apply (proj1 (proj2 (saved_config_loads_back DEFAULT_CONFIG
                         (fresh_world (outside_answering unreachable)))));
    discriminate.
Defined.

Lemma revoke_sends_stored_token_witness :
  handleRevokeAuthorization model_encrypt model_decrypt shop lasting_world
  = (set_merchant_authorizations
       (delete shop (merchant_authorizations lasting_world))
       (log_event
          (EvFetch (revoke_request shop_endpoint (js "old-access")))
          (log_event EvNow lasting_world)),
     Return {| text := [0x2713] ++ js " Revoked authorization for "
                         ++ shop |}).
Proof.
  apply (revoke_sends_stored_token model_encrypt model_decrypt
           model_decrypt_encrypt shop lasting_world lasting_record
           sample_key sample_iv (js "old-access"));
    try reflexivity.
  vm_compute. discriminate.
Defined.

Lemma failed_authorize_stores_nothing_witness :
  merchant_authorizations
    (fst (handleAuthorize model_encrypt model_sha256 model_base64url shop
            alice [js "orders"] keyed_world))
  = merchant_authorizations keyed_world.
Proof.
  apply (proj1 (failed_authorize_stores_nothing model_encrypt model_sha256
                  model_base64url shop alice [js "orders"] keyed_world
                  (Error (js "fetch failed")) eq_refl)).
Defined.

